(** * BlockChain_Backup: a file-backed, hash-linked block store

    Shallow embedding of [BlockChainBackup.py] (the command-line variant) and
    [main.py] (the GUI variant) of the repository, followed by the properties
    of the specification that were checked against them.

    The two source files share most of their code.  The embedding has a single
    set of definitions indexed by a [variant]; a definition that does not
    mention the variant is textually the same in both files.

    Conventions of the model.
    - Python [int] is [Z]; Python [str] is [string], read as ASCII text; Python
      [bytes] is [list byte].
    - A [float] time stamp is carried as the text Python prints for it.
    - The dictionaries stored in a block are the four literal shapes the
      sources build; reading a key a shape lacks raises [KeyError].
    - The file system is a finite map from path to pickled object.
    - Readings of the clock are arguments of the operations that take them.
    - Code that can raise returns [res]; the unbounded proof-of-work loop
      takes fuel and yields [OutOfFuel] when it is exhausted. *)

From Stdlib Require Import ZArith Uint63 DecimalString Ascii String Permutation Lia.
From Stdlib.Strings Require Import Byte.
From stdpp Require Import base option list gmap strings.

Local Open Scope Z_scope.
Local Open Scope string_scope.

(* ===================================================================== *)
(** ** SHA-256 ([hashlib.sha256(...).hexdigest()]) *)
(* ===================================================================== *)

Module SHA256.
Local Open Scope uint63_scope.

Definition add32 (x y : int) : int := (x + y) land 0xFFFFFFFF.
Definition rotr (n : int) (x : int) : int :=
  ((x >> n) lor (x << (32 - n))) land 0xFFFFFFFF.
Definition Ch (x y z : int) : int := (x land y) lxor ((x lxor 0xFFFFFFFF) land z).
Definition Maj (x y z : int) : int := (x land y) lxor (x land z) lxor (y land z).
Definition Sig0 (x : int) : int := rotr 2 x lxor rotr 13 x lxor rotr 22 x.
Definition Sig1 (x : int) : int := rotr 6 x lxor rotr 11 x lxor rotr 25 x.
Definition sig0 (x : int) : int := rotr 7 x lxor rotr 18 x lxor (x >> 3).
Definition sig1 (x : int) : int := rotr 17 x lxor rotr 19 x lxor (x >> 10).

(** The primes among [n, n + 1, ...], [count] of them. *)
Definition is_prime (n : Z) : bool :=
  forallb (λ d, negb (Z.eqb (n mod d) 0))%Z
          (filter (λ d, d * d ≤ n)%Z (map Z.of_nat (seq 2 (Z.to_nat n - 2)))).

Fixpoint primes_from (fuel : nat) (n : Z) (count : nat) : list Z :=
  match fuel, count with
  | S fuel', S count' =>
    if is_prime n then n :: primes_from fuel' (n + 1)%Z count'
    else primes_from fuel' (n + 1)%Z count
  | _, _ => []
  end.

(** The largest [r + d] with [d < 2 ^ k] whose cube is at most [n]. *)
Fixpoint cube_root_from (k : nat) (n r : Z) : Z :=
  match k with
  | O => r
  | S k' =>
    let r' := (r + 2 ^ Z.of_nat k')%Z in
    cube_root_from k' n (if (r' * r' * r' <=? n)%Z then r' else r)
  end.

(** The first 32 bits of the fractional part of a root of [p]. *)
Definition cube_root_bits (p : Z) : int :=
  Uint63.of_Z (cube_root_from 40 (p * 2 ^ 96) 0 mod 2 ^ 32)%Z.

Definition square_root_bits (p : Z) : int :=
  Uint63.of_Z (Z.sqrt (p * 2 ^ 64) mod 2 ^ 32)%Z.

(** The round constants: cube roots of the first sixty-four primes. *)
Definition K : list int :=
  Eval vm_compute in map cube_root_bits (primes_from 400 2 64).

Record regs := Regs
  { ra : int; rb : int; rc : int; rd : int; re : int; rf : int; rg : int; rh : int }.

(** The initial hash value: square roots of the first eight primes. *)
Definition H0 : regs :=
  Eval vm_compute in
    match map square_root_bits (primes_from 400 2 8) with
    | [a; b; c; d; e; f; g; h] => Regs a b c d e f g h
    | _ => Regs 0 0 0 0 0 0 0 0
    end.

Definition round (s : regs) (k w : int) : regs :=
  let '(Regs a b c d e f g h) := s in
  let t1 := add32 (add32 (add32 h (Sig1 e)) (add32 (Ch e f g) k)) w in
  let t2 := add32 (Sig0 a) (Maj a b c) in
  Regs (add32 t1 t2) a b c (add32 d t1) e f g.

(** Rounds 16..63.  [hist] holds the schedule words so far, newest first. *)
Fixpoint rounds (ks : list int) (hist : list int) (s : regs) : regs :=
  match ks with
  | [] => s
  | k :: ks' =>
    match hist with
    | _ :: w2 :: _ :: _ :: _ :: _ :: w7 :: _ :: _ :: _ :: _ :: _ :: _ :: _ :: w15 :: w16 :: _ =>
      let w := add32 (add32 (sig1 w2) w7) (add32 (sig0 w15) w16) in
      rounds ks' (w :: hist) (round s k w)
    | _ => s
    end
  end.

(** Rounds 0..15 consume the sixteen words of the block. *)
Fixpoint first16 (ks : list int) (ws : list int) (hist : list int) (s : regs) : regs :=
  match ws, ks with
  | w :: ws', k :: ks' => first16 ks' ws' (w :: hist) (round s k w)
  | _, _ => rounds ks hist s
  end.

Definition compress (h : regs) (blk : list int) : regs :=
  let s := first16 K blk [] h in
  Regs (add32 (ra h) (ra s)) (add32 (rb h) (rb s)) (add32 (rc h) (rc s))
       (add32 (rd h) (rd s)) (add32 (re h) (re s)) (add32 (rf h) (rf s))
       (add32 (rg h) (rg s)) (add32 (rh h) (rh s)).

Definition word (b0 b1 b2 b3 : int) : int :=
  (b0 << 24) lor (b1 << 16) lor (b2 << 8) lor b3.

(** Big-endian words of the message followed by the [0x80] marker. *)
Fixpoint words (bs : list int) : list int :=
  match bs with
  | b0 :: b1 :: b2 :: b3 :: r => word b0 b1 b2 b3 :: words r
  | [b0; b1; b2] => [word b0 b1 b2 0x80]
  | [b0; b1] => [word b0 b1 0x80 0]
  | [b0] => [word b0 0x80 0 0]
  | [] => [word 0x80 0 0 0]
  end.

Fixpoint zero_fill (n : nat) (ws : list int) : list int :=
  match n with
  | O => []
  | S n' => match ws with
            | [] => 0 :: zero_fill n' []
            | w :: r => w :: zero_fill n' r
            end
  end.

(** Absorbs the marked message sixteen words at a time; the last block is
    zero-filled and closed by the 64-bit message length [bits]. *)
Fixpoint absorb (fuel : nat) (ws : list int) (bits : int) (h : regs) : regs :=
  match fuel with
  | O => h
  | S f =>
    match ws with
    | w0 :: w1 :: w2 :: w3 :: w4 :: w5 :: w6 :: w7 :: w8 :: w9 :: w10 :: w11
         :: w12 :: w13 :: w14 :: r =>
      match r with
      | w15 :: r' =>
        absorb f r' bits
          (compress h [w0; w1; w2; w3; w4; w5; w6; w7; w8; w9; w10; w11; w12;
                       w13; w14; w15])
      | [] =>
        compress
          (compress h [w0; w1; w2; w3; w4; w5; w6; w7; w8; w9; w10; w11; w12;
                       w13; w14; 0])
          (zero_fill 14 [] ++ [bits >> 32; bits land 0xFFFFFFFF])
      end
    | _ => compress h (zero_fill 14 ws ++ [bits >> 32; bits land 0xFFFFFFFF])
    end
  end.

Definition int_of_ascii (c : ascii) : int :=
  let '(Ascii b0 b1 b2 b3 b4 b5 b6 b7) := c in
  (if b0 then 1 else 0) + (if b1 then 2 else 0) + (if b2 then 4 else 0)
  + (if b3 then 8 else 0) + (if b4 then 16 else 0) + (if b5 then 32 else 0)
  + (if b6 then 64 else 0) + (if b7 then 128 else 0).

Definition ascii_of_int (n : int) : ascii :=
  Ascii (bit n 0) (bit n 1) (bit n 2) (bit n 3) (bit n 4) (bit n 5) (bit n 6) (bit n 7).

(** The bytes of the text and their number. *)
Fixpoint bytes_of_string (s : string) (len : int) : list int * int :=
  match s with
  | EmptyString => ([], len)
  | String c r =>
    let '(bs, n) := bytes_of_string r (len + 1) in (int_of_ascii c :: bs, n)
  end.

Definition digest (s : string) : regs :=
  let '(bs, n) := bytes_of_string s 0 in
  let ws := words bs in
  absorb (S (List.length ws)) ws (n << 3) H0.

Definition hexdigit (d : int) : ascii :=
  ascii_of_int (if d <? 10 then 48 + d else 87 + d).

Definition hex32 (w : int) (tl : string) : string :=
  String (hexdigit (w >> 28)) (String (hexdigit ((w >> 24) land 0xF))
  (String (hexdigit ((w >> 20) land 0xF)) (String (hexdigit ((w >> 16) land 0xF))
  (String (hexdigit ((w >> 12) land 0xF)) (String (hexdigit ((w >> 8) land 0xF))
  (String (hexdigit ((w >> 4) land 0xF)) (String (hexdigit (w land 0xF)) tl))))))).

Definition hexdigest (s : string) : string :=
  let '(Regs a b c d e f g h) := digest s in
  hex32 a (hex32 b (hex32 c (hex32 d (hex32 e (hex32 f (hex32 g (hex32 h EmptyString))))))).

End SHA256.

(** [hashlib.sha256(s.encode()).hexdigest()] *)
Definition sha256_hex (s : string) : string := SHA256.hexdigest s.

(* ===================================================================== *)
(** ** Python text and byte primitives used by the sources *)
(* ===================================================================== *)

(** [str(n)] for an [int]. *)
Definition str_of_int (n : Z) : string := NilZero.string_of_int (Z.to_int n).

Definition code (c : ascii) : N := N_of_ascii c.

Definition hex_char (d : N) : ascii :=
  ascii_of_N (if (d <? 10)%N then 48 + d else 87 + d).

Definition hex2 (n : N) : string :=
  String (hex_char (n / 16)) (String (hex_char (n mod 16)) EmptyString).

(** [b.hex()] *)
Fixpoint bytes_hex (bs : list byte) : string :=
  match bs with
  | [] => EmptyString
  | b :: r => hex2 (Byte.to_N b) +:+ bytes_hex r
  end.

Definition hex_value (c : ascii) : option N :=
  let n := code c in
  if ((48 <=? n) && (n <=? 57))%N then Some (n - 48)%N
  else if ((97 <=? n) && (n <=? 102))%N then Some (n - 87)%N
  else if ((65 <=? n) && (n <=? 70))%N then Some (n - 55)%N
  else None.

(** ASCII white space, as [bytes.fromhex] and [int] skip it. *)
Definition is_space (c : ascii) : bool :=
  let n := code c in ((n =? 32) || ((9 <=? n) && (n <=? 13)))%N.

(** [bytes.fromhex(s)]: pairs of hexadecimal digits, white space allowed
    between pairs; [None] stands for the [ValueError] it raises. *)
Fixpoint bytes_fromhex (s : string) : option (list byte) :=
  match s with
  | EmptyString => Some []
  | String c r =>
    if is_space c then bytes_fromhex r
    else
      match r with
      | EmptyString => None
      | String d r' =>
        match hex_value c, hex_value d, bytes_fromhex r' with
        | Some hi, Some lo, Some bs =>
          match Byte.of_N (hi * 16 + lo) with
          | Some b => Some (b :: bs)
          | None => None
          end
        | _, _, _ => None
        end
      end
  end.

Definition quote1 : ascii := "'"%char.
Definition quote2 : ascii := "034"%char.
Definition backslash : ascii := "\"%char.

Fixpoint contains_char (c : ascii) (s : string) : bool :=
  match s with
  | EmptyString => false
  | String d r => Ascii.eqb c d || contains_char c r
  end.

Definition repr_char (q c : ascii) : string :=
  let n := code c in
  if Ascii.eqb c q || Ascii.eqb c backslash then String backslash (String c EmptyString)
  else if (n =? 9)%N then String backslash "t"
  else if (n =? 10)%N then String backslash "n"
  else if (n =? 13)%N then String backslash "r"
  else if ((n <? 32) || (127 <=? n))%N then String backslash (String "x" (hex2 n))
  else String c EmptyString.

Fixpoint repr_chars (q : ascii) (s : string) : string :=
  match s with
  | EmptyString => EmptyString
  | String c r => repr_char q c +:+ repr_chars q r
  end.

(** [repr(s)] for a [str] of ASCII text: single quotes unless the text holds
    a single quote and no double quote. *)
Definition repr_str (s : string) : string :=
  let q := if contains_char quote1 s && negb (contains_char quote2 s)
           then quote2 else quote1 in
  String q (repr_chars q s +:+ String q EmptyString).

(** [', '.join(l)] *)
Fixpoint comma_join (l : list string) : string :=
  match l with
  | [] => EmptyString
  | [x] => x
  | x :: r => x +:+ ", " +:+ comma_join r
  end.

(** [repr] of a dictionary whose keys and values are text, in insertion
    order. *)
Definition repr_dict (kvs : list (string * string)) : string :=
  "{" +:+ comma_join (map (λ kv, repr_str kv.1 +:+ ": " +:+ kv.2) kvs) +:+ "}".

Definition repr_list (items : list string) : string :=
  "[" +:+ comma_join items +:+ "]".

(** [s.startswith(p)] *)
Definition startswith (s p : string) : bool := String.prefix p s.

(** The text after the last ["/"] ([os.path.basename], POSIX). *)
Fixpoint basename_from (s : string) (acc : string) : string :=
  match s with
  | EmptyString => acc
  | String c r => if Ascii.eqb c "/" then basename_from r r else basename_from r acc
  end.

Definition basename (p : string) : string := basename_from p p.

Fixpoint ends_with_slash (s : string) : bool :=
  match s with
  | EmptyString => false
  | String c EmptyString => Ascii.eqb c "/"
  | String _ r => ends_with_slash r
  end.

(** [os.path.join(a, b)] (POSIX): an absolute [b] replaces [a]. *)
Definition path_join (a b : string) : string :=
  if startswith b "/" then b
  else if String.eqb a EmptyString || ends_with_slash a then a +:+ b
  else a +:+ "/" +:+ b.

(** [s] without the prefix [p], when it starts with it. *)
Fixpoint strip_prefix (p s : string) : option string :=
  match p, s with
  | EmptyString, _ => Some s
  | String a p', String b s' => if Ascii.eqb a b then strip_prefix p' s' else None
  | String _ _, EmptyString => None
  end.

Fixpoint drop_chars (n : nat) (s : string) : string :=
  match n, s with
  | S k, String _ r => drop_chars k r
  | _, _ => s
  end.

(** [s.split(sep)[-1]] for a non-empty [sep]: the text after the last
    separator met by the left-to-right scan.  [skip] counts the characters
    of a separator still to pass, [cur] is the piece that follows the last
    separator seen. *)
Fixpoint split_last_from (sep s : string) (skip : nat) (cur : string) : string :=
  match s with
  | EmptyString => cur
  | String _ r =>
    match skip with
    | S k => split_last_from sep r k cur
    | O =>
      if startswith s sep
      then split_last_from sep r (String.length sep - 1) (drop_chars (String.length sep) s)
      else split_last_from sep r O cur
    end
  end.

Definition split_last (sep s : string) : string := split_last_from sep s O s.

(** [s.split('.')[0]] *)
Fixpoint before_dot (s : string) : string :=
  match s with
  | EmptyString => EmptyString
  | String c r => if Ascii.eqb c "." then EmptyString else String c (before_dot r)
  end.

Fixpoint lstrip (s : string) : string :=
  match s with
  | String c r => if is_space c then lstrip r else s
  | EmptyString => s
  end.

Fixpoint rstrip (s : string) : string :=
  match s with
  | EmptyString => EmptyString
  | String c r =>
    match rstrip r with
    | EmptyString => if is_space c then EmptyString else String c EmptyString
    | r' => String c r'
    end
  end.

Definition digit_value (c : ascii) : option Z :=
  let n := code c in
  if ((48 <=? n) && (n <=? 57))%N then Some (Z.of_N n - 48) else None.

(** Decimal digits, a single underscore allowed between two digits.
    [after_digit] tells whether the previous character was a digit. *)
Fixpoint parse_digits (s : string) (after_digit : bool) (acc : Z) : option Z :=
  match s with
  | EmptyString => if after_digit then Some acc else None
  | String c r =>
    match digit_value c with
    | Some d => parse_digits r true (10 * acc + d)
    | None =>
      if Ascii.eqb c "_" && after_digit
      then match r with
           | String c' _ =>
             match digit_value c' with
             | Some _ => parse_digits r false acc
             | None => None
             end
           | EmptyString => None
           end
      else None
    end
  end.

(** [int(s)] in base ten; [None] stands for the [ValueError] it raises. *)
Definition py_int (s : string) : option Z :=
  match rstrip (lstrip s) with
  | String "-" r => Z.opp <$> parse_digits r false 0
  | String "+" r => parse_digits r false 0
  | t => parse_digits t false 0
  end.

(** Insertion into a list sorted by [le], before the first element that is
    not smaller: folding it from the right is a stable sort, as [sorted]. *)
Fixpoint insert_by {A : Type} (le : A → A → bool) (x : A) (l : list A) : list A :=
  match l with
  | [] => [x]
  | y :: r => if le x y then x :: y :: r else y :: insert_by le x r
  end.

Definition py_sorted {A : Type} (le : A → A → bool) (l : list A) : list A :=
  foldr (insert_by le) [] l.

(* ===================================================================== *)
(** ** Records and blocks *)
(* ===================================================================== *)

(** An item of the listing built by [get_file_list]. *)
Record file_entry := FileEntry
  { fe_file_name : string; fe_owner : string; fe_file_date : string }.

(** The dictionaries appended to [current_data]. *)
Inductive record :=
| FileRecord (file_name file_date file_content owner : string)
| UserRecord (username password_hash : string)
| GrantRecord (file_name owner user_to_share timestamp : string)
| IndexRecord (file_list : list file_entry) (timestamp : string).

(** [k in data] *)
Definition has_key (k : string) (r : record) : bool :=
  match r with
  | FileRecord _ _ _ _ =>
    bool_decide (k ∈ ["file_name"; "file_date"; "file_content"; "owner"])
  | UserRecord _ _ => bool_decide (k ∈ ["username"; "password_hash"])
  | GrantRecord _ _ _ _ =>
    bool_decide (k ∈ ["file_name"; "owner"; "user_to_share"; "timestamp"])
  | IndexRecord _ _ => bool_decide (k ∈ ["file_list"; "timestamp"])
  end.

(** [data[k]] for the keys that hold text; [None] stands for [KeyError]. *)
Definition record_get (k : string) (r : record) : option string :=
  match r with
  | FileRecord n d c o =>
    if String.eqb k "file_name" then Some n
    else if String.eqb k "file_date" then Some d
    else if String.eqb k "file_content" then Some c
    else if String.eqb k "owner" then Some o else None
  | UserRecord u p =>
    if String.eqb k "username" then Some u
    else if String.eqb k "password_hash" then Some p else None
  | GrantRecord n o u t =>
    if String.eqb k "file_name" then Some n
    else if String.eqb k "owner" then Some o
    else if String.eqb k "user_to_share" then Some u
    else if String.eqb k "timestamp" then Some t else None
  | IndexRecord _ t => if String.eqb k "timestamp" then Some t else None
  end.

Definition repr_entry (e : file_entry) : string :=
  repr_dict [("file_name", repr_str (fe_file_name e));
             ("owner", repr_str (fe_owner e));
             ("file_date", repr_str (fe_file_date e))].

Definition repr_record (r : record) : string :=
  match r with
  | FileRecord n d c o =>
    repr_dict [("file_name", repr_str n); ("file_date", repr_str d);
               ("file_content", repr_str c); ("owner", repr_str o)]
  | UserRecord u p =>
    repr_dict [("username", repr_str u); ("password_hash", repr_str p)]
  | GrantRecord n o u t =>
    repr_dict [("file_name", repr_str n); ("owner", repr_str o);
               ("user_to_share", repr_str u); ("timestamp", repr_str t)]
  | IndexRecord l t =>
    repr_dict [("file_list", repr_list (map repr_entry l)); ("timestamp", repr_str t)]
  end.

Record Block := mkBlock
  { index : Z;
    proof_no : Z;
    prev_hash : string;
    data : list record;
    timestamp : string }.

Definition calculate_hash (b : Block) : string :=
  let block_string :=
    str_of_int (index b) +:+ str_of_int (proof_no b) +:+ prev_hash b
    +:+ repr_list (map repr_record (data b)) +:+ timestamp b in
  sha256_hex block_string.

(* ===================================================================== *)
(** ** Admission: [verifying_proof], [proof_of_work], [check_validity] *)
(* ===================================================================== *)

Definition verifying_proof (last_proof proof : Z) : bool :=
  let guess := str_of_int last_proof +:+ str_of_int proof in
  let guess_hash := sha256_hex guess in
  String.eqb (substring 0 4 guess_hash) "0000".

(** The [while] loop of [proof_of_work], entered with the current value of
    [proof_no]. *)
Fixpoint proof_of_work_loop (fuel : nat) (proof_no last_proof : Z) : option Z :=
  match fuel with
  | O => None
  | S fuel' =>
    if verifying_proof proof_no last_proof then Some proof_no
    else proof_of_work_loop fuel' (proof_no + 1) last_proof
  end.

Definition proof_of_work (fuel : nat) (last_proof : Z) : option Z :=
  proof_of_work_loop fuel 0 last_proof.

Definition check_validity (block prev_block : Block) : bool :=
  if negb (Z.eqb (index prev_block + 1) (index block)) then false
  else if negb (String.eqb (calculate_hash prev_block) (prev_hash block)) then false
  else if negb (verifying_proof (proof_no block) (proof_no prev_block)) then false
  else true.

(* ===================================================================== *)
(** ** Results, state passing *)
(* ===================================================================== *)

Inductive exn :=
| FileNotFoundError
| KeyError
| ValueError
| IndexError
| PickleKindError.
(* [PickleKindError]: a path held a chain snapshot where a block is read, or
   a block where a snapshot is read; the sources never write one under the
   name of the other. *)

Inductive res (A : Type) :=
| Ok (a : A)
| Raise (e : exn)
| OutOfFuel.
Arguments Ok {A} a.
Arguments Raise {A} e.
Arguments OutOfFuel {A}.

(** A method that reads and writes a state [S] and returns an [A]. *)
Definition M (S A : Type) : Type := S → res (A * S).

Definition ret {S A : Type} (a : A) : M S A := λ s, Ok (a, s).

Definition bind {S A B : Type} (m : M S A) (k : A → M S B) : M S B :=
  λ s, match m s with
       | Ok (a, s') => k a s'
       | Raise e => Raise e
       | OutOfFuel => OutOfFuel
       end.

Definition raise {S A : Type} (e : exn) : M S A := λ _, Raise e.

Definition gets {S A : Type} (f : S → A) : M S A := λ s, Ok (f s, s).

Definition modify {S : Type} (f : S → S) : M S unit := λ s, Ok (tt, f s).

Definition from_option {S A : Type} (e : exn) (o : option A) : M S A :=
  match o with
  | Some a => ret a
  | None => raise e
  end.

(** Runs a method of a part [S] of the state [T]. *)
Definition zoom {S T A : Type} (get : T → S) (set : S → T → T) (m : M S A) : M T A :=
  λ t, match m (get t) with
       | Ok (a, s') => Ok (a, set s' t)
       | Raise e => Raise e
       | OutOfFuel => OutOfFuel
       end.

Notation "x <- m ;; k" := (bind m (λ x, k))
  (at level 100, m at next level, right associativity).
Notation "m ;;; k" := (bind m (λ _, k))
  (at level 100, right associativity).

(** [[f(x) for x in l]] for a method [f]. *)
Fixpoint for_each {S A B : Type} (f : A → M S B) (l : list A) : M S (list B) :=
  match l with
  | [] => ret []
  | x :: r => y <- f x ;; ys <- for_each f r ;; ret (y :: ys)
  end.

(* ===================================================================== *)
(** ** Storage and the [Blockchain] class *)
(* ===================================================================== *)

(** What [pickle.dump] wrote under a path. *)
Inductive pickled :=
| PBlock (b : Block)
| PChain (c : list Block).

Record Blockchain := mkBlockchain
  { chain : list Block;
    current_data : list record;
    chunk_index : gmap Z string;
    storage_dir : string;
    chunk_size : Z;
    blockchain_name : string }.

Definition set_chain (c : list Block) (bc : Blockchain) : Blockchain :=
  mkBlockchain c (current_data bc) (chunk_index bc) (storage_dir bc)
               (chunk_size bc) (blockchain_name bc).

Definition set_current_data (d : list record) (bc : Blockchain) : Blockchain :=
  mkBlockchain (chain bc) d (chunk_index bc) (storage_dir bc)
               (chunk_size bc) (blockchain_name bc).

Definition set_chunk_index (ci : gmap Z string) (bc : Blockchain) : Blockchain :=
  mkBlockchain (chain bc) (current_data bc) ci (storage_dir bc)
               (chunk_size bc) (blockchain_name bc).

(** The state a [Blockchain] method works on: the files and the object. *)
Abbreviation store := (gmap string pickled * Blockchain)%type.

Definition on_self {A : Type} (f : Blockchain → A) : M store A := gets (λ s, f s.2).

Definition update_self (f : Blockchain → Blockchain) : M store unit :=
  modify (λ s, (s.1, f s.2)).

(** The two source files. *)
Inductive variant :=
| BlockChainBackup
| Main.

(** What the process environment decides: the order in which a [set] of
    file names is iterated, and [os.path.relpath(p, start=os.getcwd())]. *)
Record env := mkEnv
  { set_order : list string → list string;
    relpath : string → string }.

Definition dir_prefix (d : string) : string :=
  if ends_with_slash d then d else d +:+ "/".

(** The name [k] has directly under directory [d], if it lies there. *)
Definition entry_name (d k : string) : option string :=
  match strip_prefix (dir_prefix d) k with
  | Some n => if String.eqb n EmptyString || contains_char "/" n then None else Some n
  | None => None
  end.

(** [os.listdir(d)] *)
Definition listdir (d : string) (fs : gmap string pickled) : list string :=
  omap (λ kv, entry_name d kv.1) (map_to_list fs).

Definition block_file_name (name : string) (i : Z) : string :=
  name +:+ "_block_" +:+ str_of_int i +:+ ".pkl".

(** [open(path, 'rb')] then [pickle.load], expecting a block. *)
Definition read_block (path : string) : M store Block :=
  λ s, match s.1 !! path with
       | Some (PBlock b) => Ok (b, s)
       | Some (PChain _) => Raise PickleKindError
       | None => Raise FileNotFoundError
       end.

Definition save_block (block : Block) : M store unit :=
  sd <- on_self storage_dir ;;
  name <- on_self blockchain_name ;;
  let block_file := path_join sd (block_file_name name (index block)) in
  modify (λ s, (<[block_file := PBlock block]> s.1, s.2)) ;;;
  update_self (λ bc, set_chunk_index (<[index block := block_file]> (chunk_index bc)) bc).

Definition load_block (block_file : string) : M store Block :=
  sd <- on_self storage_dir ;;
  read_block (path_join sd block_file).

(** [self.chain[-1]] *)
Definition latest_block : M store Block :=
  c <- on_self chain ;; from_option IndexError (last c).

(** The loop of [main.py]'s [verify_chain_integrity] from position [index]
    on, [prev_block] being [chain[index - 1]]. *)
Fixpoint verify_from (prev_block : Block) (rest : list Block) : bool :=
  match rest with
  | [] => true
  | current_block :: rest' =>
    if negb (check_validity current_block prev_block) then false
    else verify_from current_block rest'
  end.

Module MainPy.
(** [verify_chain_integrity(self)] of [main.py]. *)
Definition verify_chain_integrity (c : list Block) : bool :=
  match c with
  | [] => true
  | b :: rest => verify_from b rest
  end.
End MainPy.

Definition construct_block (v : variant) (now : string) (proof_no : Z)
    (prev_hash : string) : M store Block :=
  c <- on_self chain ;;
  let expected_index := Z.of_nat (length c) in
  match v, last c with
  | Main, Some prev_block =>
    if negb (Z.eqb (index prev_block + 1) expected_index) then raise ValueError
    else ret tt
  | _, _ => ret tt
  end ;;;
  d <- on_self current_data ;;
  let block := mkBlock expected_index proof_no prev_hash d now in
  update_self (set_current_data []) ;;;
  update_self (λ bc, set_chain (chain bc ++ [block]) bc) ;;;
  save_block block ;;;
  match v with
  | Main =>
    c' <- on_self chain ;;
    if negb (MainPy.verify_chain_integrity c') then raise ValueError else ret block
  | BlockChainBackup => ret block
  end.

Definition construct_genesis (v : variant) (now : string) : M store unit :=
  construct_block v now 0 "0" ;;; ret tt.

(** [s.add(x)] on a set kept as the list of its elements. *)
Definition set_add (x : string) (s : list string) : list string :=
  if bool_decide (x ∈ s) then s else s ++ [x].

Definition load_adjacent_blocks (E : env) (block_index : Z) : M store (list Block) :=
  ci <- on_self chunk_index ;;
  let blocks_to_load := [] in
  let blocks_to_load :=
    match ci !! block_index with
    | Some f => set_add f blocks_to_load
    | None => blocks_to_load
    end in
  let blocks_to_load :=
    if bool_decide (block_index > 0) then
      match ci !! (block_index - 1) with
      | Some f => set_add f blocks_to_load
      | None => blocks_to_load
      end
    else blocks_to_load in
  let blocks_to_load :=
    match ci !! (block_index + 1) with
    | Some f => set_add f blocks_to_load
    | None => blocks_to_load
    end in
  for_each load_block (set_order E blocks_to_load).

Module BackupPy.
(** [verify_chain_integrity(self, target_block_index)] of
    [BlockChainBackup.py]. *)
Definition verify_chain_integrity (E : env) (target_block_index : Z) : M store bool :=
  loaded_blocks <- load_adjacent_blocks E target_block_index ;;
  let blocks : gmap Z Block :=
    foldl (λ m block, <[index block := block]> m) ∅ loaded_blocks in
  match blocks !! target_block_index with
  | Some target_block =>
    let prev_block := blocks !! (target_block_index - 1) in
    let next_block := blocks !! (target_block_index + 1) in
    match prev_block with
    | Some p =>
      if negb (check_validity target_block p) then ret false
      else
        match next_block with
        | Some n => if negb (check_validity n target_block) then ret false else ret true
        | None => ret true
        end
    | None =>
      match next_block with
      | Some n => if negb (check_validity n target_block) then ret false else ret true
      | None => ret true
      end
    end
  | None => ret false
  end.
End BackupPy.

(** [extract_block_index] of [main.py]'s [load_chain]. *)
Definition extract_block_index (filename : string) : option Z :=
  py_int (before_dot (split_last "_block_" filename)).

(** The sorted list [block_files] of [load_chain]; [None] stands for the
    [ValueError] of [int] in [extract_block_index]. *)
Definition block_files (v : variant) (sd name : string) (fs : gmap string pickled)
    : option (list string) :=
  let found := filter (λ f, startswith f (name +:+ "_block_") = true) (listdir sd fs) in
  match v with
  | BlockChainBackup => Some (py_sorted String.leb found)
  | Main =>
    keyed ← mapM (λ f, (λ k, (k, f)) <$> extract_block_index f) found;
    Some ((py_sorted (λ a b, Z.leb a.1 b.1) keyed).*2)
  end.

(** One turn of the loading loop of [load_chain]. *)
Definition load_chain_step (v : variant) (block_file : string) : M store unit :=
  sd <- on_self storage_dir ;;
  block <- read_block (path_join sd block_file) ;;
  c <- on_self chain ;;
  match v, last c with
  | Main, Some tail =>
    if negb (check_validity block tail) then raise ValueError else ret tt
  | _, _ => ret tt
  end ;;;
  update_self (λ bc, set_chain (chain bc ++ [block]) bc) ;;;
  update_self (λ bc, set_chunk_index (<[index block := block_file]> (chunk_index bc)) bc).

Definition load_chain (v : variant) (now : string) : M store unit :=
  sd <- on_self storage_dir ;;
  name <- on_self blockchain_name ;;
  fs <- gets fst ;;
  files <- from_option ValueError (block_files v sd name fs) ;;
  update_self (set_chain []) ;;;
  update_self (set_chunk_index ∅) ;;;
  for_each (load_chain_step v) files ;;;
  c <- on_self chain ;;
  match c with
  | [] => construct_genesis v now
  | _ => ret tt
  end ;;;
  match v with
  | Main =>
    c' <- on_self chain ;;
    if negb (MainPy.verify_chain_integrity c') then raise ValueError else ret tt
  | BlockChainBackup => ret tt
  end.

(** [Blockchain.__init__]; [os.makedirs] refuses the empty path. *)
Definition Blockchain_init (v : variant) (now : string) (storage_dir : string)
    (chunk_size : Z) (blockchain_name : string) (fs : gmap string pickled)
    : res (unit * store) :=
  if String.eqb storage_dir EmptyString then Raise FileNotFoundError
  else load_chain v now (fs, mkBlockchain [] [] ∅ storage_dir chunk_size blockchain_name).

(** The recurring expression
    [self.construct_block(self.proof_of_work(self.latest_block.proof_no),
                          self.latest_block.calculate_hash)]. *)
Definition seal (v : variant) (fuel : nat) (now : string) : M store Block :=
  b <- latest_block ;;
  match proof_of_work fuel (proof_no b) with
  | Some p => b' <- latest_block ;; construct_block v now p (calculate_hash b')
  | None => λ _, OutOfFuel
  end.

(* ===================================================================== *)
(** ** [FileBlockchain] *)
(* ===================================================================== *)

Record FileBlockchain := mkFileBlockchain
  { fb_self : Blockchain;
    file_index : gmap string Z;
    users : gmap string string }.

Abbreviation file_store := (gmap string pickled * FileBlockchain)%type.

(** A method inherited from [Blockchain], run on a [FileBlockchain]. *)
Definition inherited {A : Type} (m : M store A) : M file_store A :=
  zoom (λ s : file_store, (s.1, fb_self s.2))
       (λ s' s, (s'.1, mkFileBlockchain s'.2 (file_index s.2) (users s.2))) m.

Definition set_file_index (fi : gmap string Z) (fb : FileBlockchain) : FileBlockchain :=
  mkFileBlockchain (fb_self fb) fi (users fb).

Definition set_users (us : gmap string string) (fb : FileBlockchain) : FileBlockchain :=
  mkFileBlockchain (fb_self fb) (file_index fb) us.

(** The dictionary [update_file_index] builds from the chain. *)
Definition index_files (c : list Block) : gmap string Z :=
  foldl (λ fi block,
           foldl (λ fi data,
                    if has_key "file_name" data
                    then match record_get "file_name" data with
                         | Some n => <[n := index block]> fi
                         | None => fi
                         end
                    else fi)
                 fi (data block))
        ∅ c.

Definition update_file_index : M file_store unit :=
  modify (λ s, (s.1, set_file_index (index_files (chain (fb_self s.2))) s.2)).

(** The loop of [load_users_from_chain], started from the current [users]. *)
Definition index_users (us : gmap string string) (c : list Block) : gmap string string :=
  foldl (λ us block,
           foldl (λ us data,
                    if has_key "username" data && has_key "password_hash" data
                    then match record_get "username" data, record_get "password_hash" data with
                         | Some u, Some h => <[u := h]> us
                         | _, _ => us
                         end
                    else us)
                 us (data block))
        us c.

Definition load_users_from_chain : M file_store unit :=
  modify (λ s, (s.1, set_users (index_users (users s.2) (chain (fb_self s.2))) s.2)).

(** The records of the blocks, in the order the nested loops visit them. *)
Definition records_of (blocks : list Block) : list record :=
  concat (map data blocks).

Fixpoint file_entries (records : list record) : option (list file_entry) :=
  match records with
  | [] => Some []
  | data :: rest =>
    if has_key "file_name" data then
      n ← record_get "file_name" data;
      o ← record_get "owner" data;
      d ← record_get "file_date" data;
      l ← file_entries rest;
      Some (FileEntry n o d :: l)
    else file_entries rest
  end.

(** [get_file_list]; a record with a file name and no date raises. *)
Definition get_file_list : M file_store (list file_entry) :=
  c <- gets (λ s : file_store, chain (fb_self s.2)) ;;
  from_option KeyError (file_entries (records_of c)).

Definition is_file_in_chain (file_name : string) : M file_store bool :=
  fi <- gets (λ s : file_store, file_index s.2) ;;
  ret (bool_decide (is_Some (fi !! file_name))).

(** The scanning loops of [get_file_content]. *)
Fixpoint find_file_content (file_name owner : string) (is_shared : bool)
    (records : list record) : res (option (list byte)) :=
  match records with
  | [] => Ok None
  | data :: rest =>
    match record_get "file_name" data with
    | None => Raise KeyError
    | Some n =>
      if String.eqb n file_name then
        match record_get "owner" data with
        | None => Raise KeyError
        | Some o =>
          if String.eqb o owner || is_shared then
            match record_get "file_content" data with
            | None => Raise KeyError
            | Some c =>
              match bytes_fromhex c with
              | Some bs => Ok (Some bs)
              | None => Raise ValueError
              end
            end
          else find_file_content file_name owner is_shared rest
        end
      else find_file_content file_name owner is_shared rest
    end
  end.

Definition lift_res {S A : Type} (r : res A) : M S A :=
  λ s, match r with
       | Ok a => Ok (a, s)
       | Raise e => Raise e
       | OutOfFuel => OutOfFuel
       end.

(** The integrity check [get_file_content] runs: the window around the
    block in [BlockChainBackup.py], the whole chain in [main.py]. *)
Definition read_path_check (v : variant) (E : env) (block_index : Z) : M file_store bool :=
  match v with
  | BlockChainBackup => inherited (BackupPy.verify_chain_integrity E block_index)
  | Main => c <- inherited (on_self chain) ;; ret (MainPy.verify_chain_integrity c)
  end.

Definition get_file_content (v : variant) (E : env) (file_name owner : string)
    (is_shared : bool) : M file_store (option (list byte)) :=
  fi <- gets (λ s : file_store, file_index s.2) ;;
  match fi !! file_name with
  | None => ret None
  | Some block_index =>
    ok <- read_path_check v E block_index ;;
    if negb ok then ret None
    else
      loaded_blocks <- inherited (load_adjacent_blocks E block_index) ;;
      lift_res (find_file_content file_name owner is_shared (records_of loaded_blocks))
  end.

(** [add_user] of [main.py]. *)
Definition add_user (fuel : nat) (now : string) (username password : string)
    : M file_store unit :=
  let password_hash := sha256_hex password in
  inherited (update_self (λ bc,
    set_current_data (current_data bc ++ [UserRecord username password_hash]) bc)) ;;;
  inherited (seal Main fuel now) ;;;
  modify (λ s, (s.1, set_users (<[username := password_hash]> (users s.2)) s.2)).

Definition register_user (v : variant) (fuel : nat) (now : string)
    (username password : string) : M file_store bool :=
  us <- gets (λ s : file_store, users s.2) ;;
  match us !! username with
  | Some _ => ret false
  | None =>
    match v with
    | BlockChainBackup =>
      modify (λ s, (s.1, set_users (<[username := sha256_hex password]> (users s.2)) s.2)) ;;;
      ret true
    | Main => add_user fuel now username password ;;; ret true
    end
  end.

Definition authenticate_user (username password : string) : M file_store bool :=
  us <- gets (λ s : file_store, users s.2) ;;
  match us !! username with
  | None => ret false
  | Some h => ret (String.eqb h (sha256_hex password))
  end.

Definition FileBlockchain_init (v : variant) (now : string) (storage_dir : string)
    (chunk_size : Z) (blockchain_name : string) (fs : gmap string pickled)
    : res (unit * file_store) :=
  match Blockchain_init v now storage_dir chunk_size blockchain_name fs with
  | Ok (_, (fs', bc)) =>
    (update_file_index ;;;
     match v with
     | Main => load_users_from_chain
     | BlockChainBackup => ret tt
     end) (fs', mkFileBlockchain bc ∅ ∅)
  | Raise e => Raise e
  | OutOfFuel => OutOfFuel
  end.

(* ===================================================================== *)
(** ** [AccessBlockchain] and [IndexBlockchain] *)
(* ===================================================================== *)

Record AccessBlockchain := mkAccessBlockchain
  { ab_self : Blockchain;
    storage_file : string }.

Abbreviation access_store := (gmap string pickled * AccessBlockchain)%type.

Definition inherited_access {A : Type} (m : M store A) : M access_store A :=
  zoom (λ s : access_store, (s.1, ab_self s.2))
       (λ s' s, (s'.1, mkAccessBlockchain s'.2 (storage_file s.2))) m.

Definition load_access_chain (v : variant) (now : string) : M access_store unit :=
  sf <- gets (λ s : access_store, storage_file s.2) ;;
  fs <- gets fst ;;
  match fs !! sf with
  | Some (PChain c) => inherited_access (update_self (set_chain c))
  | Some (PBlock _) => raise PickleKindError
  | None => ret tt
  end ;;;
  c <- inherited_access (on_self chain) ;;
  match c with
  | [] => inherited_access (construct_genesis v now)
  | _ => ret tt
  end.

Definition save_access_chain : M access_store unit :=
  modify (λ s : access_store,
            (<[storage_file s.2 := PChain (chain (ab_self s.2))]> s.1, s.2)).

Definition grant_access (v : variant) (fuel : nat) (stamp now : string)
    (file_name owner user_to_share : string) : M access_store unit :=
  inherited_access (update_self (λ bc,
    set_current_data
      (current_data bc ++ [GrantRecord file_name owner user_to_share stamp]) bc)) ;;;
  inherited_access (seal v fuel now) ;;;
  ret tt.

(** The scanning loops of [has_access]. *)
Fixpoint find_access (file_name user : string) (records : list record) : res bool :=
  match records with
  | [] => Ok false
  | data :: rest =>
    match record_get "file_name" data with
    | None => Raise KeyError
    | Some n =>
      if String.eqb (basename n) (basename file_name) then
        match record_get "user_to_share" data with
        | None => Raise KeyError
        | Some u =>
          if String.eqb u user then Ok true
          else
            match record_get "owner" data with
            | None => Raise KeyError
            | Some o =>
              if String.eqb o user then Ok true else find_access file_name user rest
            end
        end
      else find_access file_name user rest
    end
  end.

Definition has_access (file_name user : string) : M access_store bool :=
  c <- inherited_access (on_self chain) ;;
  lift_res (find_access file_name user (records_of c)).

Definition AccessBlockchain_init (v : variant) (now now' : string) (storage_dir : string)
    (chunk_size : Z) (blockchain_name : string) (fs : gmap string pickled)
    : res (unit * access_store) :=
  match Blockchain_init v now storage_dir chunk_size blockchain_name fs with
  | Ok (_, (fs', bc)) =>
    load_access_chain v now'
      (fs', mkAccessBlockchain bc
              (path_join storage_dir (blockchain_name +:+ "_access_chain.pkl")))
  | Raise e => Raise e
  | OutOfFuel => OutOfFuel
  end.

(** [IndexBlockchain] adds no field to [Blockchain]. *)
Definition update_index (v : variant) (fuel : nat) (stamp now : string)
    (file_list : list file_entry) : M store unit :=
  update_self (λ bc,
    set_current_data (current_data bc ++ [IndexRecord file_list stamp]) bc) ;;;
  seal v fuel now ;;;
  ret tt.

Definition get_latest_index : M store (list record) :=
  c <- on_self chain ;;
  match last c with
  | Some b => ret (data b)
  | None => ret []
  end.

(* ===================================================================== *)
(** ** The three chains of a running program *)
(* ===================================================================== *)

Record world := mkWorld
  { files : gmap string pickled;
    file_blockchain : FileBlockchain;
    access_blockchain : AccessBlockchain;
    index_blockchain : Blockchain }.

Definition on_file {A : Type} (m : M file_store A) : M world A :=
  zoom (λ w, (files w, file_blockchain w))
       (λ s' w, mkWorld s'.1 s'.2 (access_blockchain w) (index_blockchain w)) m.

Definition on_access {A : Type} (m : M access_store A) : M world A :=
  zoom (λ w, (files w, access_blockchain w))
       (λ s' w, mkWorld s'.1 (file_blockchain w) s'.2 (index_blockchain w)) m.

Definition on_index {A : Type} (m : M store A) : M world A :=
  zoom (λ w, (files w, index_blockchain w))
       (λ s' w, mkWorld s'.1 (file_blockchain w) (access_blockchain w) s'.2) m.

(** The clock readings of one [add_file]: the time stamp of the new file
    block, of the grant record and its block, of the listing record and
    its block. *)
Record add_file_clock := mkClock
  { t_file_block : string;
    t_grant : string;
    t_access_block : string;
    t_listing : string;
    t_index_block : string }.

Definition add_file (v : variant) (E : env) (fuel : nat) (clk : add_file_clock)
    (file_path file_date : string) (file_content : list byte) (owner : string)
    : M world unit :=
  let relative_path := relpath E file_path in
  on_file (inherited (update_self (λ bc,
    set_current_data
      (current_data bc
       ++ [FileRecord relative_path file_date (bytes_hex file_content) owner]) bc))) ;;;
  on_file (inherited (seal v fuel (t_file_block clk))) ;;;
  on_file update_file_index ;;;
  on_access (grant_access v fuel (t_grant clk) (t_access_block clk)
               relative_path owner owner) ;;;
  on_access save_access_chain ;;;
  file_list <- on_file get_file_list ;;
  on_index (update_index v fuel (t_listing clk) (t_index_block clk) file_list).

(** The objects the programs create at start, on the given files:
    [FileBlockchain(blockchain_name=name)], [AccessBlockchain(...)],
    [IndexBlockchain(...)], each with its default directory. *)
Definition new_world (v : variant) (name : string) (t_file t_access t_access' t_index : string)
    (fs : gmap string pickled) : res world :=
  match FileBlockchain_init v t_file "file_blockchain" 1 name fs with
  | Ok (_, (fs1, fb)) =>
    match AccessBlockchain_init v t_access t_access' "access_blockchain" 1 name fs1 with
    | Ok (_, (fs2, ab)) =>
      match Blockchain_init v t_index "index_blockchain" 1 name fs2 with
      | Ok (_, (fs3, ib)) => Ok (mkWorld fs3 fb ab ib)
      | Raise e => Raise e
      | OutOfFuel => OutOfFuel
      end
    | Raise e => Raise e
    | OutOfFuel => OutOfFuel
    end
  | Raise e => Raise e
  | OutOfFuel => OutOfFuel
  end.

(* ===================================================================== *)
(** ** Notions used by the statements *)
(* ===================================================================== *)

(** The block [construct_block] builds on a chain object. *)
Definition new_block (bc : Blockchain) (proof_no : Z) (prev_hash now : string) : Block :=
  mkBlock (Z.of_nat (length (chain bc))) proof_no prev_hash (current_data bc) now.

(** The path [save_block] writes a block to. *)
Definition block_path (bc : Blockchain) (b : Block) : string :=
  path_join (storage_dir bc) (block_file_name (blockchain_name bc) (index b)).

(** The state [construct_block] leaves when it returns [b]. *)
Definition append_block (b : Block) (s : store) : store :=
  (<[block_path s.2 b := PBlock b]> s.1,
   mkBlockchain (chain s.2 ++ [b]) [] (<[index b := block_path s.2 b]> (chunk_index s.2))
                (storage_dir s.2) (chunk_size s.2) (blockchain_name s.2)).

(** Chain linkage between the block at position [i] and its predecessor. *)
Definition linked_at (c : list Block) (i : nat) : Prop :=
  ∃ b p, c !! i = Some b ∧ c !! (i - 1)%nat = Some p ∧
         prev_hash b = calculate_hash p ∧
         index b = index p + 1 ∧
         verifying_proof (proof_no b) (proof_no p) = true.

(** Every block holds its position as index, and the chain is not empty. *)
Definition positioned (c : list Block) : Prop :=
  c ≠ [] ∧ ∀ (i : nat) b, c !! i = Some b → index b = Z.of_nat i.

Definition linked (c : list Block) : Prop :=
  ∀ i : nat, (1 ≤ i ≤ length c - 1)%nat → linked_at c i.

Definition chains_of (w : world) : list (list Block) :=
  [chain (fb_self (file_blockchain w));
   chain (ab_self (access_blockchain w));
   chain (index_blockchain w)].

(** The states a program reaches from new storage by sealing operations. *)
Inductive reachable (v : variant) (E : env) : world → Prop :=
| reach_new name t1 t2 t3 t4 w :
    new_world v name t1 t2 t3 t4 ∅ = Ok w →
    reachable v E w
| reach_add_file fuel clk file_path file_date file_content owner w w' :
    reachable v E w →
    add_file v E fuel clk file_path file_date file_content owner w = Ok (tt, w') →
    reachable v E w'
| reach_grant_access fuel stamp now file_name owner user_to_share w w' :
    reachable v E w →
    on_access (grant_access v fuel stamp now file_name owner user_to_share) w
      = Ok (tt, w') →
    reachable v E w'
| reach_update_index fuel stamp now file_list w w' :
    reachable v E w →
    on_index (update_index v fuel stamp now file_list) w = Ok (tt, w') →
    reachable v E w'
| reach_add_user fuel now username password w w' :
    v = Main →
    reachable v E w →
    on_file (add_user fuel now username password) w = Ok (tt, w') →
    reachable v E w'.

(** The iteration order of a set is some arrangement of its elements. *)
Definition set_order_ok (E : env) : Prop :=
  ∀ l, Permutation (set_order E l) l.

(** An environment: sets iterate in insertion order, paths are already
    relative to the working directory. *)
Definition plain_env : env := mkEnv id id.

(** Fuel that lets the search from the genesis proof finish. *)
Definition genesis_fuel : nat := Z.to_nat 100000.

(** A record of an access chain. *)
Definition is_grant (r : record) : Prop :=
  match r with
  | GrantRecord _ _ _ _ => True
  | _ => False
  end.

(** The files [save_block] leaves for the blocks of [c], written in order. *)
Definition persist (sd name : string) (c : list Block) (fs : gmap string pickled)
    : gmap string pickled :=
  foldl (λ fs b, <[path_join sd (block_file_name name (index b)) := PBlock b]> fs) fs c.

(** The first four characters of a digest are zeros. *)
Definition zero_prefix (digest : string) : bool :=
  String.eqb (substring 0 4 digest) "0000".

Definition genesis_block (now : string) : Block := mkBlock 0 0 "0" [] now.

(** The chain object [Blockchain.__init__] leaves when it finds no block
    file, and the files then. *)
Definition fresh_store (now sd name : string) (fs : gmap string pickled) : store :=
  append_block (genesis_block now) (fs, mkBlockchain [] [] ∅ sd 1 name).

(** The three chains of a program started on empty storage. *)
Definition fresh_world (name t_file t_access t_index : string) : world :=
  let s1 := fresh_store t_file "file_blockchain" name ∅ in
  let s2 := fresh_store t_access "access_blockchain" name s1.1 in
  let s3 := fresh_store t_index "index_blockchain" name s2.1 in
  mkWorld s3.1 (mkFileBlockchain s1.2 ∅ ∅)
          (mkAccessBlockchain s2.2
             (path_join "access_blockchain" (name +:+ "_access_chain.pkl")))
          s3.2.

(** [c'] is [c] with one block sealed onto its last block. *)
Definition sealed_onto (c c' : list Block) : Prop :=
  ∃ l b, last c = Some l ∧ c' = (c ++ [b])%list ∧
         index b = Z.of_nat (length c) ∧
         prev_hash b = calculate_hash l ∧
         verifying_proof (proof_no b) (proof_no l) = true.

(** The state after [r] joined [current_data] and a block with proof [p]
    was sealed onto the last block. *)
Definition seal_with (p : Z) (now : string) (r : record) (s : store) : store :=
  match last (chain s.2) with
  | Some l =>
    append_block
      (mkBlock (Z.of_nat (length (chain s.2))) p (calculate_hash l)
               (current_data s.2 ++ [r])%list now) s
  | None => s
  end.

(** The world after an [add_file] whose three searches gave [p1], [p2]
    and [p3]. *)
Definition add_file_effect (E : env) (p1 p2 p3 : Z) (clk : add_file_clock)
    (file_path file_date : string) (file_content : list byte) (owner : string)
    (w : world) : world :=
  let relative_path := relpath E file_path in
  let s1 :=
    seal_with p1 (t_file_block clk)
      (FileRecord relative_path file_date (bytes_hex file_content) owner)
      (files w, fb_self (file_blockchain w)) in
  let s2 :=
    seal_with p2 (t_access_block clk)
      (GrantRecord relative_path owner owner (t_grant clk))
      (s1.1, ab_self (access_blockchain w)) in
  let file_list := default [] (file_entries (records_of (chain s1.2))) in
  let s3 :=
    seal_with p3 (t_index_block clk) (IndexRecord file_list (t_listing clk))
      (<[storage_file (access_blockchain w) := PChain (chain s2.2)]> s2.1,
       index_blockchain w) in
  mkWorld s3.1
    (mkFileBlockchain s1.2 (index_files (chain s1.2)) (users (file_blockchain w)))
    (mkAccessBlockchain s2.2 (storage_file (access_blockchain w)))
    s3.2.

(** A program started on empty storage under the name [default]. *)
Definition demo_world : world :=
  fresh_world "default" "1700000000.25" "1700000000.5" "1700000000.75".

Definition demo_clock : add_file_clock :=
  mkClock "1700000001.0" "2023-11-14 22:13:21" "1700000001.25"
          "2023-11-14 22:13:21" "1700000001.5".

(** [demo_world] after [add_file("f.txt", t, b"hi", "alice", ...)]. *)
Definition demo_world_with_file (t : string) : world :=
  add_file_effect plain_env 88914 88914 88914 demo_clock "f.txt" t
                  ["h"%byte; "i"%byte] "alice" demo_world.

(** A [Blockchain] with its default arguments, started on empty storage. *)
Definition plain_store (now : string) : store :=
  fresh_store now "blockchain_data" "default" ∅.

(** The text [raise]d or returned, without the state. *)
Definition outcome {S A : Type} (r : res (A * S)) : res A :=
  match r with
  | Ok (a, _) => Ok a
  | Raise e => Raise e
  | OutOfFuel => OutOfFuel
  end.

(** The set [blocks_to_load] of [load_adjacent_blocks], in insertion order. *)
Definition adjacent_files (ci : gmap Z string) (block_index : Z) : list string :=
  let blocks_to_load := [] in
  let blocks_to_load :=
    match ci !! block_index with
    | Some f => set_add f blocks_to_load
    | None => blocks_to_load
    end in
  let blocks_to_load :=
    if bool_decide (block_index > 0) then
      match ci !! (block_index - 1) with
      | Some f => set_add f blocks_to_load
      | None => blocks_to_load
      end
    else blocks_to_load in
  match ci !! (block_index + 1) with
  | Some f => set_add f blocks_to_load
  | None => blocks_to_load
  end.

(** The file [load_block] opens for an entry of [chunk_index] is absent. *)
Definition unreadable (s : store) (block_file : string) : Prop :=
  s.1 !! path_join (storage_dir s.2) block_file = None.

(** A block whose [prev_hash] is not the digest of the genesis block. *)
Definition tampered_block : Block :=
  mkBlock 1 88914 "0000"
          [FileRecord "f.txt" "2023-11-14 22:13:20" "6869" "alice"] "1700000001.0".

Definition tampered_chain : list Block :=
  [genesis_block "1700000000.25"; tampered_block].

(** The [FileBlockchain] that [BlockChainBackup.py] builds from the two
    block files of [tampered_chain]. *)
Definition tampered_store : file_store :=
  (persist "file_blockchain" "default" tampered_chain ∅,
   mkFileBlockchain
     (mkBlockchain tampered_chain []
        (<[1 := "default_block_1.pkl"]> (<[0 := "default_block_0.pkl"]> ∅))
        "file_blockchain" 1 "default")
     (<["f.txt" := 1]> ∅) ∅).

(** The chain of the state a method returned. *)
Definition loaded_chain (r : res (unit * store)) : res (list Block) :=
  match r with
  | Ok (_, s) => Ok (chain s.2)
  | Raise e => Raise e
  | OutOfFuel => OutOfFuel
  end.

(** The positions of eleven blocks in the order of their file names. *)
Definition name_order : list nat := [0; 1; 10; 2; 3; 4; 5; 6; 7; 8; 9]%nat.

(** The access chain of [demo_world] after
    [grant_access("f.txt", "alice", "bob")]. *)
Definition demo_access_store : access_store :=
  let s := seal_with 88914 "1700000003.0"
             (GrantRecord "f.txt" "alice" "bob" "2023-11-14 22:13:23")
             (files demo_world, ab_self (access_blockchain demo_world)) in
  (s.1, mkAccessBlockchain s.2 (storage_file (access_blockchain demo_world))).

(** Eleven blocks numbered 0 to 10. *)
Definition numbered_blocks : list Block :=
  map (λ i : nat, mkBlock (Z.of_nat i) 0 "0" [] "1700000000.0") (seq 0 11).

(** [demo_world_with_file] once the file chain has run [load_chain] again,
    as the [backup] command does when it ends. *)
Definition reloaded (t now : string) : res (unit * file_store) :=
  inherited (load_chain BlockChainBackup now)
    (files (demo_world_with_file t), file_blockchain (demo_world_with_file t)).

(** [get_file_content] on the reloaded chain. *)
Definition read_after_reload (t now owner : string) (is_shared : bool)
    : res (option (list byte)) :=
  match reloaded t now with
  | Ok (_, s) =>
    outcome (get_file_content BlockChainBackup plain_env "f.txt" owner is_shared s)
  | Raise e => Raise e
  | OutOfFuel => OutOfFuel
  end.

(* ===================================================================== *)
(** ** Further methods of the sources *)
(* ===================================================================== *)

(** [l[i]] for a Python list: a negative [i] counts from the end; [None]
    stands for [IndexError]. *)
Definition py_index {A : Type} (l : list A) (i : Z) : option A :=
  let pos := if bool_decide (i < 0) then Z.of_nat (length l) + i else i in
  if bool_decide (pos < 0) then None else l !! Z.to_nat pos.

(** [verify_block_integrity], the same in both sources. *)
Definition verify_block_integrity (block : Block) : M store bool :=
  if Z.eqb (index block) 0 then ret true
  else
    c <- on_self chain ;;
    prev_block <- from_option IndexError (py_index c (index block - 1)) ;;
    ret (check_validity block prev_block).

(** The loop of [BlockchainApp.check_integrity] of [main.py] from the block
    after [prev_block] on; the result is the title and the message of the
    popup it shows. *)
Fixpoint check_integrity_from (prev_block : Block) (rest : list Block)
    : string * string :=
  match rest with
  | [] => ("Success", "Blockchain integrity verified.")
  | block :: rest' =>
    if negb (String.eqb (prev_hash block) (calculate_hash prev_block)) then
      ("Error", "Block " +:+ str_of_int (index block) +:+ " has invalid previous hash.")
    else if negb (check_validity block prev_block) then
      ("Error", "Block " +:+ str_of_int (index block) +:+ " is invalid.")
    else check_integrity_from block rest'
  end.

(** [BlockchainApp.check_integrity] on the chain of [self.file_blockchain]. *)
Definition check_integrity (c : list Block) : string * string :=
  match c with
  | [] => ("Success", "Blockchain integrity verified.")
  | b :: rest => check_integrity_from b rest
  end.

(* ===================================================================== *)
(** ** Further notions used by the statements *)
(* ===================================================================== *)

(** Whether a method returned, and the state it then left ([d] otherwise). *)
Definition returned {S A : Type} (r : res (A * S)) : bool :=
  match r with
  | Ok _ => true
  | _ => false
  end.

Definition final_state {S A : Type} (d : S) (r : res (A * S)) : S :=
  match r with
  | Ok (_, s) => s
  | _ => d
  end.

(** The three conditions [check_validity] tests. *)
Definition valid_pair (block prev_block : Block) : Prop :=
  index prev_block + 1 = index block
  ∧ calculate_hash prev_block = prev_hash block
  ∧ verifying_proof (proof_no block) (proof_no prev_block) = true.

(** The file chain of [demo_world_with_file] as a restarted program finds
    it: the files, and an object not yet loaded. *)
Definition demo_restart : store :=
  (files (demo_world_with_file "2023-11-14 22:13:20"),
   mkBlockchain [] [] ∅ "file_blockchain" 1 "default").

(** A record of a content chain: a file record or a credential record. *)
Definition is_content (r : record) : Prop :=
  match r with
  | FileRecord _ _ _ _ | UserRecord _ _ => True
  | _ => False
  end.

(** A record of an index chain. *)
Definition is_listing (r : record) : Prop :=
  match r with
  | IndexRecord _ _ => True
  | _ => False
  end.

(** What holds of the three objects between two calls of a running
    program: each chain holds the records of its class, nothing is pending,
    and [file_index] is what [update_file_index] builds from the chain. *)
Definition settled (w : world) : Prop :=
  Forall is_content (records_of (chain (fb_self (file_blockchain w))))
  ∧ Forall is_grant (records_of (chain (ab_self (access_blockchain w))))
  ∧ Forall is_listing (records_of (chain (index_blockchain w)))
  ∧ current_data (fb_self (file_blockchain w)) = []
  ∧ current_data (ab_self (access_blockchain w)) = []
  ∧ current_data (index_blockchain w) = []
  ∧ file_index (file_blockchain w) = index_files (chain (fb_self (file_blockchain w))).

(** One turn of the inner loop of [update_file_index]. *)
Definition index_file_step (i : Z) (fi : gmap string Z) (data : record) : gmap string Z :=
  if has_key "file_name" data
  then match record_get "file_name" data with
       | Some n => <[n := i]> fi
       | None => fi
       end
  else fi.

(** One turn of the inner loop of [load_users_from_chain]. *)
Definition index_user_step (us : gmap string string) (data : record) : gmap string string :=
  if has_key "username" data && has_key "password_hash" data
  then match record_get "username" data, record_get "password_hash" data with
       | Some u, Some h => <[u := h]> us
       | _, _ => us
       end
  else us.

(** The block file [load_block] opens for an entry of [chunk_index] holds
    the block [b]. *)
Definition holds_block (s : store) (block_file : string) (b : Block) : Prop :=
  s.1 !! path_join (storage_dir s.2) block_file = Some (PBlock b).

(** [demo_world_with_file]'s file chain after the reload that ends the
    [backup] command. *)
Definition demo_reloaded : file_store :=
  final_state (∅, file_blockchain demo_world)
              (reloaded "2023-11-14 22:13:20" "1700000006.0").

(** Two chain objects read the same block for an entry of [chunk_index]. *)
Definition same_block_file (s t : store) (block_file : string) : Prop :=
  s.1 !! path_join (storage_dir s.2) block_file
  = t.1 !! path_join (storage_dir t.2) block_file.

(** [tampered_store]'s chain object with the list [chain] emptied and a
    block file of another position added to storage. *)
Definition tampered_elsewhere : store :=
  (<[path_join "file_blockchain" (block_file_name "default" 7) := PBlock tampered_block]>
     tampered_store.1,
   set_chain [] (fb_self tampered_store.2)).

(** [demo_access_store] after [save_access_chain]. *)
Definition demo_access_saved : access_store :=
  (<[storage_file demo_access_store.2 := PChain (chain (ab_self demo_access_store.2))]>
     demo_access_store.1,
   demo_access_store.2).

(** An access chain object on the same snapshot file, its chain empty. *)
Definition demo_access_unloaded : AccessBlockchain :=
  mkAccessBlockchain (set_chain [] (ab_self demo_access_store.2))
                     (storage_file demo_access_store.2).

(** [get_file_content] would return the content of the record [r] to this
    caller. *)
Definition may_read (file_name owner : string) (is_shared : bool) (r : record) : Prop :=
  record_get "file_name" r = Some file_name
  ∧ (record_get "owner" r = Some owner ∨ is_shared = true).

(** A chain of [main.py]: a registration block, then a file block. *)
Definition registration_block (prev : Block) : Block :=
  mkBlock 1 88914 (calculate_hash prev)
          [UserRecord "bob" (sha256_hex "password456")] "1700000001.0".

Definition file_block_after (prev : Block) : Block :=
  mkBlock 2 49714 (calculate_hash prev)
          [FileRecord "f.txt" "2023-11-14 22:13:20" "6869" "alice"] "1700000002.0".

Definition main_chain : list Block :=
  let b0 := genesis_block "1700000000.25" in
  let b1 := registration_block b0 in
  [b0; b1; file_block_after b1].

(** The [FileBlockchain] that [main.py] builds at start from the block
    files of [main_chain]. *)
Definition main_restarted : file_store :=
  final_state (∅, mkFileBlockchain (mkBlockchain [] [] ∅ "file_blockchain" 1 "default") ∅ ∅)
    (FileBlockchain_init Main "1700000003.0" "file_blockchain" 1 "default"
       (persist "file_blockchain" "default" main_chain ∅)).

(** The world after an [add_user] whose search gave [p]. *)
Definition add_user_effect (p : Z) (now username password : string) (w : world) : world :=
  let s := seal_with p now (UserRecord username (sha256_hex password))
             (files w, fb_self (file_blockchain w)) in
  mkWorld s.1
    (mkFileBlockchain s.2 (file_index (file_blockchain w))
       (<[username := sha256_hex password]> (users (file_blockchain w))))
    (access_blockchain w) (index_blockchain w).

(** [demo_world], as [main.py] starts it, after
    [add_user("bob", "password456")]. *)
Definition demo_world_with_user : world :=
  add_user_effect 88914 "1700000002.0" "bob" "password456" demo_world.

(** Every entry of [chunk_index] names a file that [load_block] can open,
    and that file holds a block of the entry's index. *)
Definition loadable (s : store) : Prop :=
  ∀ i f, chunk_index s.2 !! i = Some f → ∃ b, holds_block s f b ∧ index b = i.

(** The block [x] is stored for position [k] of the window around
    [block_index]: [chunk_index] names a file for [k], one of the three
    positions [load_adjacent_blocks] asks for, and the file holds [x]. *)
Definition window_block (s : store) (block_index k : Z) (x : Block) : Prop :=
  (k = block_index ∨ (k = block_index - 1 ∧ block_index > 0) ∨ k = block_index + 1)
  ∧ ∃ f, chunk_index s.2 !! k = Some f ∧ holds_block s f x.

(** The dictionary [blocks] of the windowed check. *)
Definition by_index (loaded_blocks : list Block) : gmap Z Block :=
  foldl (λ m block, <[index block := block]> m) ∅ loaded_blocks.

(** The record carries the name of another path. *)
Definition other_path (file_name : string) (r : record) : Prop :=
  ∃ n, record_get "file_name" r = Some n ∧ n ≠ file_name.

(** The file chain of [demo_world_with_file] as [load_chain] of
    [BlockChainBackup.py] rebuilds it from the block files. *)
Definition demo_reloaded_store : store :=
  final_state demo_restart (load_chain BlockChainBackup "1700000006.0" demo_restart).

(** The [FileBlockchain] on that chain, [file_index] rebuilt. *)
Definition demo_backup_restarted : file_store :=
  (demo_reloaded_store.1,
   mkFileBlockchain demo_reloaded_store.2
                    (index_files (chain demo_reloaded_store.2)) ∅).

(* ===================================================================== *)
(** ** Reasoning about results *)
(* ===================================================================== *)

Local Open Scope Z_scope.
Local Open Scope list_scope.

Lemma bind_Ok {S A B : Type} (m : M S A) (k : A → M S B) s r :
  bind m k s = Ok r → ∃ a s', m s = Ok (a, s') ∧ k a s' = Ok r.
Proof.
  unfold bind. destruct (m s) as [[a s']| |]; [eauto|done|done].
Qed.

Lemma bind_eval {S A B : Type} (m : M S A) (k : A → M S B) s a s' :
  m s = Ok (a, s') → bind m k s = k a s'.
Proof. unfold bind. by intros ->. Qed.

Lemma zoom_Ok {S T A : Type} (get : T → S) (set : S → T → T) (m : M S A) t a t' :
  zoom get set m t = Ok (a, t') → ∃ s', m (get t) = Ok (a, s') ∧ t' = set s' t.
Proof.
  unfold zoom. destruct (m (get t)) as [[a0 s']| |]; [|done|done].
  intros [= -> <-]. eauto.
Qed.

Lemma zoom_eval {S T A : Type} (get : T → S) (set : S → T → T) (m : M S A) t a s' :
  m (get t) = Ok (a, s') → zoom get set m t = Ok (a, set s' t).
Proof. unfold zoom. by intros ->. Qed.

Ltac unfold_M :=
  unfold from_option, lift_res, on_self, update_self in *;
  unfold bind, ret, raise, gets, modify in *;
  cbn beta in *.

(* ===================================================================== *)
(** ** Admission *)
(* ===================================================================== *)

Lemma verifying_proof_unfold c p :
  verifying_proof c p = zero_prefix (sha256_hex (str_of_int c +:+ str_of_int p)).
Proof. reflexivity. Qed.

Lemma proof_of_work_loop_sound fuel start last p :
  proof_of_work_loop fuel start last = Some p →
  start ≤ p ∧ verifying_proof p last = true ∧
  ∀ q, start ≤ q < p → verifying_proof q last = false.
Proof.
  revert start. induction fuel as [|fuel IH]; intros start; simpl; [done|].
  destruct (verifying_proof start last) eqn:Hv.
  - intros [= <-]. repeat split; [lia|done|intros; lia].
  - intros Hloop. destruct (IH _ Hloop) as (Hle & Hp & Hmin).
    repeat split; [lia|done|].
    intros q Hq. destruct (decide (q = start)) as [->|]; [done|].
    apply Hmin. lia.
Qed.

Lemma proof_of_work_loop_complete fuel start last p :
  start ≤ p → verifying_proof p last = true →
  (∀ q, start ≤ q < p → verifying_proof q last = false) →
  (Z.to_nat (p - start) < fuel)%nat →
  proof_of_work_loop fuel start last = Some p.
Proof.
  revert start. induction fuel as [|fuel IH]; intros start Hle Hp Hmin Hfuel; [lia|].
  simpl. destruct (decide (start = p)) as [->|Hne].
  - by rewrite Hp.
  - rewrite Hmin by lia. apply IH; [lia|done|intros; apply Hmin; lia|lia].
Qed.

(** Among the candidates [start .. p0] the first admitted one exists. *)
Lemma first_admitted last (n : nat) start :
  verifying_proof (start + Z.of_nat n) last = true →
  ∃ p, start ≤ p ≤ start + Z.of_nat n ∧ verifying_proof p last = true ∧
       ∀ q, start ≤ q < p → verifying_proof q last = false.
Proof.
  revert start. induction n as [|n IH]; intros start Hv.
  - exists start. replace (start + Z.of_nat 0) with start in Hv by lia.
    repeat split; [lia|lia|done|intros; lia].
  - destruct (verifying_proof start last) eqn:Hs.
    + exists start. repeat split; [lia|lia|done|intros; lia].
    + destruct (IH (start + 1)) as (p & Hr & Hp & Hmin).
      { by replace (start + 1 + Z.of_nat n) with (start + Z.of_nat (S n)) by lia. }
      exists p. repeat split; [lia|lia|done|].
      intros q Hq. destruct (decide (q = start)) as [->|]; [done|apply Hmin; lia].
Qed.

Lemma proof_of_work_sound fuel last p :
  proof_of_work fuel last = Some p →
  0 ≤ p ∧ verifying_proof p last = true ∧
  ∀ q, 0 ≤ q < p → verifying_proof q last = false.
Proof. apply proof_of_work_loop_sound. Qed.

(** The search from the proof of a genesis block. *)
Lemma proof_of_work_genesis : proof_of_work genesis_fuel 0 = Some 88914.
Proof. vm_cast_no_check (eq_refl (Some 88914)). Qed.

(** C3.  [verifying_proof] admits exactly when the digest of its first
    argument rendered before its second starts with four zeros, and both
    callers pass the candidate first: for the candidate 88914 after the
    genesis proof 0, the digest of [889140] starts with [0000] and the
    candidate is admitted, while the digest of [088914], the previous proof
    rendered first, does not. *)
Theorem admission_renders_candidate_first :
  (∀ candidate_proof prev_proof,
     verifying_proof candidate_proof prev_proof = true ↔
     zero_prefix (sha256_hex (str_of_int candidate_proof +:+ str_of_int prev_proof)) = true)
  ∧ verifying_proof 88914 0 = true
  ∧ proof_of_work genesis_fuel 0 = Some 88914
  ∧ zero_prefix (sha256_hex (str_of_int 0 +:+ str_of_int 88914)) = false.
Proof.
  split; [intros; by rewrite verifying_proof_unfold|].
  split; [vm_compute; reflexivity|].
  split; [exact proof_of_work_genesis|vm_compute; reflexivity].
Qed.

(** C4.  When some non-negative integer is admitted after [last_proof], the
    search of [proof_of_work] ends: with any fuel above the smallest admitted
    integer it returns that integer. *)
Theorem proof_of_work_least last_proof p0 :
  0 ≤ p0 → verifying_proof p0 last_proof = true →
  ∃ p, 0 ≤ p ≤ p0 ∧ verifying_proof p last_proof = true ∧
       (∀ q, 0 ≤ q < p → verifying_proof q last_proof = false) ∧
       ∀ fuel, (Z.to_nat p < fuel)%nat → proof_of_work fuel last_proof = Some p.
Proof.
  intros Hp0 Hv.
  destruct (first_admitted last_proof (Z.to_nat p0) 0) as (p & Hr & Hp & Hmin).
  { by replace (0 + Z.of_nat (Z.to_nat p0)) with p0 by lia. }
  exists p. repeat split; [lia|lia|done|done|].
  intros fuel Hfuel. apply proof_of_work_loop_complete; [lia|done|done|].
  by replace (p - 0) with p by lia.
Qed.

Lemma proof_of_work_least_witness :
  ∃ p, 0 ≤ p ≤ 88914 ∧ verifying_proof p 0 = true ∧
       (∀ q, 0 ≤ q < p → verifying_proof q 0 = false) ∧
       ∀ fuel, (Z.to_nat p < fuel)%nat → proof_of_work fuel 0 = Some p.
Proof.
  apply (proof_of_work_least 0 88914); [lia|vm_compute; reflexivity].
Defined.

(* ===================================================================== *)
(** ** Sealing a block *)
(* ===================================================================== *)

Lemma construct_block_backup now p h s :
  construct_block BlockChainBackup now p h s
  = Ok (new_block s.2 p h now, append_block (new_block s.2 p h now) s).
Proof. destruct s as [fs bc]. reflexivity. Qed.

Lemma construct_block_Ok v now p h s b s' :
  construct_block v now p h s = Ok (b, s') →
  b = new_block s.2 p h now ∧ s' = append_block b s ∧
  (v = Main → MainPy.verify_chain_integrity (chain s'.2) = true).
Proof.
  destruct v.
  - rewrite construct_block_backup. intros [= <- <-]. done.
  - destruct s as [fs bc]. unfold construct_block. unfold_M. simpl.
    destruct (last (chain bc)) as [prev|]; simpl.
    + destruct (index prev + 1 =? Z.of_nat (length (chain bc))); simpl; [|done].
      unfold save_block. unfold_M. simpl.
      destruct (MainPy.verify_chain_integrity _) eqn:Hv; simpl; [|done].
      intros [= <- <-]. done.
    + unfold save_block. unfold_M. simpl.
      destruct (MainPy.verify_chain_integrity _) eqn:Hv; simpl; [|done].
      intros [= <- <-]. done.
Qed.

Lemma construct_block_main now p h (s : store) :
  match last (chain s.2) with
  | Some prev_block => index prev_block + 1 = Z.of_nat (length (chain s.2))
  | None => True
  end →
  MainPy.verify_chain_integrity (chain s.2 ++ [new_block s.2 p h now]) = true →
  construct_block Main now p h s
  = Ok (new_block s.2 p h now, append_block (new_block s.2 p h now) s).
Proof.
  destruct s as [fs bc]. simpl. intros Hidx Hv.
  unfold construct_block. unfold_M. simpl.
  destruct (last (chain bc)) as [prev|]; simpl.
  - apply Z.eqb_eq in Hidx. rewrite Hidx. simpl.
    unfold new_block in Hv. by rewrite Hv.
  - unfold new_block in Hv. by rewrite Hv.
Qed.

Lemma latest_block_Ok s b s' :
  latest_block s = Ok (b, s') → last (chain s.2) = Some b ∧ s' = s.
Proof.
  unfold latest_block. unfold_M. destruct (last (chain s.2)); simpl; [|done].
  by intros [= <- <-].
Qed.

Lemma latest_block_eval s b :
  last (chain s.2) = Some b → latest_block s = Ok (b, s).
Proof. unfold latest_block. unfold_M. by intros ->. Qed.

Lemma seal_unfold v fuel now s l p :
  last (chain s.2) = Some l →
  proof_of_work fuel (proof_no l) = Some p →
  seal v fuel now s = construct_block v now p (calculate_hash l) s.
Proof.
  intros Hl Hp. unfold seal.
  rewrite (bind_eval _ _ _ _ _ (latest_block_eval _ _ Hl)), Hp.
  by rewrite (bind_eval _ _ _ _ _ (latest_block_eval _ _ Hl)).
Qed.

Lemma seal_Ok v fuel now s b s' :
  seal v fuel now s = Ok (b, s') →
  ∃ l p, last (chain s.2) = Some l ∧
         proof_of_work fuel (proof_no l) = Some p ∧
         b = new_block s.2 p (calculate_hash l) now ∧
         s' = append_block b s ∧
         (v = Main → MainPy.verify_chain_integrity (chain s'.2) = true).
Proof.
  unfold seal. intros H.
  apply bind_Ok in H as (l & s1 & Hl & H).
  apply latest_block_Ok in Hl as [Hl ->].
  destruct (proof_of_work fuel (proof_no l)) as [p|] eqn:Hp; [|done].
  apply bind_Ok in H as (l' & s2 & Hl' & H).
  apply latest_block_Ok in Hl' as [Hl' ->].
  assert (l' = l) as -> by congruence.
  apply construct_block_Ok in H as (-> & -> & Hv).
  exists l, p. done.
Qed.

(** C8.  A call of [construct_block] that returns has added exactly its
    block at the end of the chain: the length grows by one, every earlier
    position holds the block it held, all fields alike, and [current_data]
    is empty.  In [BlockChainBackup.py] every call returns. *)
Theorem construct_block_appends v now p h s b s' :
  construct_block v now p h s = Ok (b, s') →
  length (chain s'.2) = S (length (chain s.2)) ∧
  (∀ i : nat, (i < length (chain s.2))%nat → chain s'.2 !! i = chain s.2 !! i) ∧
  chain s'.2 = chain s.2 ++ [b] ∧
  current_data s'.2 = [] ∧
  construct_block BlockChainBackup now p h s
  = Ok (new_block s.2 p h now, append_block (new_block s.2 p h now) s).
Proof.
  intros H. apply construct_block_Ok in H as (-> & -> & _). simpl.
  split; [rewrite length_app; simpl; lia|].
  split; [intros i Hi; by rewrite lookup_app_l|].
  split; [done|]. split; [done|]. apply construct_block_backup.
Qed.

(* ===================================================================== *)
(** ** Linkage is kept by sealing *)
(* ===================================================================== *)

Lemma positioned_last c l :
  positioned c → last c = Some l → index l = Z.of_nat (length c) - 1.
Proof.
  intros [Hne Hpos] Hl. rewrite last_lookup in Hl.
  apply Hpos in Hl. destruct c; [done|]. simpl in *. lia.
Qed.

Lemma sealed_onto_positioned c c' :
  positioned c → sealed_onto c c' → positioned c'.
Proof.
  intros [Hne Hpos] (l & b & Hl & -> & Hi & _). split.
  - by destruct c.
  - intros i x Hx. apply lookup_snoc_Some in Hx as [[_ Hx]|[Hlen Hb]]; [eauto|].
    by subst.
Qed.

Lemma sealed_onto_linked c c' :
  positioned c → linked c → sealed_onto c c' → linked c'.
Proof.
  intros Hp Hlk (l & b & Hl & -> & Hi & Hh & Hv) i Hi'.
  rewrite length_app in Hi'. simpl in Hi'.
  destruct (decide (i = length c)) as [->|Hne].
  - exists b, l. split; [by apply list_lookup_middle|].
    split; [|split; [done|split; [|done]]].
    + rewrite lookup_app_l by lia. rewrite last_lookup in Hl.
      by replace (length c - 1)%nat with (Init.Nat.pred (length c)) by lia.
    + rewrite Hi, (positioned_last c l Hp Hl). lia.
  - destruct (Hlk i) as (x & p & Hx & Hpp & Hrest); [lia|].
    exists x, p. rewrite !lookup_app_l by lia. done.
Qed.

Lemma seal_sealed_onto v fuel now s b s' :
  seal v fuel now s = Ok (b, s') → sealed_onto (chain s.2) (chain s'.2).
Proof.
  intros H. apply seal_Ok in H as (l & p & Hl & Hp & -> & -> & _).
  exists l, (new_block s.2 p (calculate_hash l) now).
  apply proof_of_work_sound in Hp as (_ & Hp & _). done.
Qed.

Lemma singleton_positioned now : positioned [genesis_block now].
Proof. split; [done|]. intros [|i] b; [by intros [= <-]|done]. Qed.

Lemma singleton_linked (b : Block) : linked [b].
Proof. intros i Hi. simpl in Hi. lia. Qed.

(* ===================================================================== *)
(** ** Starting on empty storage *)
(* ===================================================================== *)

Lemma listdir_nil d (fs : gmap string pickled) :
  (∀ k x, fs !! k = Some x → entry_name d k = None) → listdir d fs = [].
Proof.
  intros Hnone. unfold listdir.
  destruct (omap _ _) as [|n r] eqn:Hl; [done|].
  assert (n ∈ n :: r) as Hin by left. rewrite <- Hl in Hin.
  apply list_elem_of_omap in Hin as ([k x] & Hkx & Hn).
  apply elem_of_map_to_list in Hkx. simpl in Hn.
  by rewrite (Hnone _ _ Hkx) in Hn.
Qed.

Lemma Blockchain_init_fresh v now sd cs name fs :
  sd ≠ EmptyString → listdir sd fs = [] →
  Blockchain_init v now sd cs name fs
  = Ok (tt, append_block (genesis_block now) (fs, mkBlockchain [] [] ∅ sd cs name)).
Proof.
  intros Hsd Hls. unfold Blockchain_init.
  destruct (String.eqb sd EmptyString) eqn:He; [by apply String.eqb_eq in He|].
  unfold load_chain, block_files. unfold_M. simpl. rewrite Hls.
  destruct v; reflexivity.
Qed.

Lemma append_inj_l (p a b : string) : p +:+ a = p +:+ b → a = b.
Proof. induction p as [|c p IH]; simpl; [done|]. intros [= H]. auto. Qed.

Lemma startswith_slash x :
  startswith x "/" = match x with
                     | String c _ => Ascii.eqb "/" c
                     | EmptyString => false
                     end.
Proof.
  destruct x as [|c x]; [done|]. unfold startswith.
  change (String.prefix "/" (String c x))
    with (match ascii_dec "/" c with
          | left _ => String.prefix EmptyString x
          | right _ => false
          end).
  destruct (ascii_dec "/" c) as [<-|Hne].
  - by destruct x.
  - symmetry. by apply Ascii.eqb_neq.
Qed.

Lemma startswith_slash_app (name a b : string) (c : ascii) :
  startswith (name +:+ String c a) "/" = startswith (name +:+ String c b) "/".
Proof. rewrite !startswith_slash. by destruct name. Qed.

Ltac split_path x :=
  unfold path_join; rewrite startswith_slash; destruct x as [|? x];
  [reflexivity|];
  match goal with
  | |- context [Ascii.eqb "/" ?c] =>
    let E := fresh in
    destruct (Ascii.eqb "/" c) eqn:E;
    [apply Ascii.eqb_eq in E as <-; reflexivity|reflexivity]
  end.

Lemma access_dir_skips_file_dir x :
  entry_name "access_blockchain" (path_join "file_blockchain" x) = None.
Proof. split_path x. Qed.

Lemma index_dir_skips_file_dir x :
  entry_name "index_blockchain" (path_join "file_blockchain" x) = None.
Proof. split_path x. Qed.

Lemma index_dir_skips_access_dir x :
  entry_name "index_blockchain" (path_join "access_blockchain" x) = None.
Proof. split_path x. Qed.

Lemma snapshot_is_no_block_file d name i :
  path_join d (name +:+ "_access_chain.pkl") ≠ path_join d (block_file_name name i).
Proof.
  unfold path_join, block_file_name.
  change (name +:+ "_access_chain.pkl") with (name +:+ String "_" "access_chain.pkl").
  change (name +:+ "_block_" +:+ str_of_int i +:+ ".pkl")
    with (name +:+ String "_" ("block_" +:+ str_of_int i +:+ ".pkl")).
  rewrite (startswith_slash_app name "access_chain.pkl" ("block_" +:+ str_of_int i +:+ ".pkl")).
  destruct (startswith _ "/"); [|destruct (_ || _)].
  - intros H. apply (append_inj_l name) in H. cbn in H. discriminate.
  - intros H. apply (append_inj_l d), (append_inj_l name) in H. cbn in H. discriminate.
  - intros H. apply (append_inj_l d), (append_inj_l "/"), (append_inj_l name) in H.
    cbn in H. discriminate.
Qed.

Lemma access_snapshot_not_in_file_dir name i :
  path_join "access_blockchain" (name +:+ "_access_chain.pkl")
  ≠ path_join "file_blockchain" (block_file_name name i).
Proof.
  unfold path_join, block_file_name.
  change (name +:+ "_access_chain.pkl") with (name +:+ String "_" "access_chain.pkl").
  change (name +:+ "_block_" +:+ str_of_int i +:+ ".pkl")
    with (name +:+ String "_" ("block_" +:+ str_of_int i +:+ ".pkl")).
  rewrite (startswith_slash_app name "access_chain.pkl" ("block_" +:+ str_of_int i +:+ ".pkl")).
  destruct (startswith _ "/"); [|discriminate].
  intros H. apply (append_inj_l name) in H. cbn in H. discriminate.
Qed.

Lemma FileBlockchain_init_fresh v now name fs :
  listdir "file_blockchain" fs = [] →
  FileBlockchain_init v now "file_blockchain" 1 name fs
  = Ok (tt, ((fresh_store now "file_blockchain" name fs).1,
             mkFileBlockchain (fresh_store now "file_blockchain" name fs).2 ∅ ∅)).
Proof.
  intros Hls. unfold FileBlockchain_init.
  rewrite Blockchain_init_fresh by done.
  unfold fresh_store, append_block. by destruct v.
Qed.

Lemma AccessBlockchain_init_fresh v now now' name fs :
  listdir "access_blockchain" fs = [] →
  fs !! path_join "access_blockchain" (name +:+ "_access_chain.pkl") = None →
  AccessBlockchain_init v now now' "access_blockchain" 1 name fs
  = Ok (tt, ((fresh_store now "access_blockchain" name fs).1,
             mkAccessBlockchain (fresh_store now "access_blockchain" name fs).2
               (path_join "access_blockchain" (name +:+ "_access_chain.pkl")))).
Proof.
  intros Hls Hsnap. unfold AccessBlockchain_init.
  rewrite Blockchain_init_fresh by done.
  unfold fresh_store, append_block, load_access_chain. unfold_M. simpl.
  rewrite lookup_insert_ne; [|apply not_eq_sym, snapshot_is_no_block_file].
  by rewrite Hsnap.
Qed.

Lemma new_world_fresh v name t1 t2 t3 t4 :
  new_world v name t1 t2 t3 t4 ∅ = Ok (fresh_world name t1 t2 t4).
Proof.
  unfold new_world.
  rewrite FileBlockchain_init_fresh by (by apply listdir_nil).
  cbv beta iota.
  rewrite AccessBlockchain_init_fresh; cycle 1.
  { apply listdir_nil. intros k x Hk. simpl in Hk.
    apply lookup_insert_Some in Hk as [[<- _]|[_ Hk]]; [|done].
    apply access_dir_skips_file_dir. }
  { simpl. rewrite lookup_insert_ne; [done|].
    apply not_eq_sym, access_snapshot_not_in_file_dir. }
  cbv beta iota.
  unfold fresh_store at 1. rewrite Blockchain_init_fresh; [|done|]; last first.
  { apply listdir_nil. intros k x Hk. simpl in Hk.
    apply lookup_insert_Some in Hk as [[<- _]|[_ Hk]];
      [apply index_dir_skips_access_dir|].
    apply lookup_insert_Some in Hk as [[<- _]|[_ Hk]]; [|done].
    apply index_dir_skips_file_dir. }
  reflexivity.
Qed.

(* ===================================================================== *)
(** ** What the sealing operations do *)
(* ===================================================================== *)

Ltac unfold_zoom :=
  unfold on_file, on_access, on_index, inherited, inherited_access, zoom in *.

Lemma update_index_Ok v fuel stamp now fl (s s' : store) :
  update_index v fuel stamp now fl s = Ok (tt, s') →
  ∃ b, seal v fuel now
         (s.1, set_current_data (current_data s.2 ++ [IndexRecord fl stamp]) s.2)
       = Ok (b, s').
Proof.
  unfold update_index. unfold_M. simpl.
  destruct (seal _ _ _ _) as [[b t]| |]; [|done|done].
  intros [= <-]. eauto.
Qed.

Lemma grant_access_Ok v fuel stamp now f o u (s s' : access_store) :
  grant_access v fuel stamp now f o u s = Ok (tt, s') →
  ∃ b t, seal v fuel now
           (s.1, set_current_data
                   (current_data (ab_self s.2) ++ [GrantRecord f o u stamp])
                   (ab_self s.2))
         = Ok (b, t)
         ∧ s' = (t.1, mkAccessBlockchain t.2 (storage_file s.2)).
Proof.
  unfold grant_access. unfold_zoom. unfold_M. simpl.
  destruct (seal _ _ _ _) as [[b t]| |]; [|done|done].
  intros [= <-]. eauto.
Qed.

Lemma add_user_Ok fuel now username password (s s' : file_store) :
  add_user fuel now username password s = Ok (tt, s') →
  ∃ b t, seal Main fuel now
           (s.1, set_current_data
                   (current_data (fb_self s.2)
                    ++ [UserRecord username (sha256_hex password)])
                   (fb_self s.2))
         = Ok (b, t)
         ∧ s' = (t.1, mkFileBlockchain t.2 (file_index s.2)
                        (<[username := sha256_hex password]> (users s.2))).
Proof.
  unfold add_user. unfold_zoom. unfold_M. simpl.
  destruct (seal _ _ _ _) as [[b t]| |]; [|done|done].
  intros [= <-]. eauto.
Qed.

Lemma add_file_Ok v E fuel clk file_path file_date file_content owner w w' :
  add_file v E fuel clk file_path file_date file_content owner w = Ok (tt, w') →
  ∃ b1 t1 b2 t2 b3 t3 file_list,
    seal v fuel (t_file_block clk)
      (files w,
       set_current_data
         (current_data (fb_self (file_blockchain w))
          ++ [FileRecord (relpath E file_path) file_date (bytes_hex file_content) owner])
         (fb_self (file_blockchain w)))
    = Ok (b1, t1)
    ∧ seal v fuel (t_access_block clk)
        (t1.1,
         set_current_data
           (current_data (ab_self (access_blockchain w))
            ++ [GrantRecord (relpath E file_path) owner owner (t_grant clk)])
           (ab_self (access_blockchain w)))
      = Ok (b2, t2)
    ∧ file_entries (records_of (chain t1.2)) = Some file_list
    ∧ seal v fuel (t_index_block clk)
        (<[storage_file (access_blockchain w) := PChain (chain t2.2)]> t2.1,
         set_current_data
           (current_data (index_blockchain w) ++ [IndexRecord file_list (t_listing clk)])
           (index_blockchain w))
      = Ok (b3, t3)
    ∧ w' = mkWorld t3.1
             (mkFileBlockchain t1.2 (index_files (chain t1.2))
                               (users (file_blockchain w)))
             (mkAccessBlockchain t2.2 (storage_file (access_blockchain w)))
             t3.2.
Proof.
  unfold add_file, grant_access, save_access_chain, get_file_list, update_index,
    update_file_index.
  unfold_zoom. unfold_M. simpl.
  destruct (seal v fuel (t_file_block clk) _) as [[b1 t1]| |] eqn:H1; [|done|done].
  simpl.
  destruct (seal v fuel (t_access_block clk) _) as [[b2 t2]| |] eqn:H2; [|done|done].
  simpl.
  destruct (file_entries _) as [fl|] eqn:Hfl; simpl; [|done].
  destruct (seal v fuel (t_index_block clk) _) as [[b3 t3]| |] eqn:H3; [|done|done].
  intros [= <-]. exists b1, t1, b2, t2, b3, t3, fl. done.
Qed.

(* ===================================================================== *)
(** ** The chain-linkage invariant *)
(* ===================================================================== *)

Lemma seal_keeps v fuel now fs bc d b s' :
  positioned (chain bc) ∧ linked (chain bc) →
  seal v fuel now (fs, set_current_data d bc) = Ok (b, s') →
  positioned (chain s'.2) ∧ linked (chain s'.2).
Proof.
  intros [Hp Hl] H. apply seal_sealed_onto in H. simpl in H.
  split; [by eapply sealed_onto_positioned|by eapply sealed_onto_linked].
Qed.

Lemma reachable_linked v E w :
  reachable v E w →
  Forall (λ c, positioned c ∧ linked c) (chains_of w).
Proof.
  induction 1 as [name t1 t2 t3 t4 w Hnew
                 |fuel clk fp fd fc o w w' _ IH Hop
                 |fuel stamp now f o u w w' _ IH Hop
                 |fuel stamp now fl w w' _ IH Hop
                 |fuel now u p w w' _ _ IH Hop].
  - rewrite new_world_fresh in Hnew. injection Hnew as <-.
    unfold chains_of, fresh_world, fresh_store. simpl.
    repeat apply Forall_cons_2; [| | |apply Forall_nil_2];
      (split; [apply singleton_positioned|apply singleton_linked]).
  - apply add_file_Ok in Hop
      as (b1 & s1 & b2 & s2 & b3 & s3 & fl & H1 & H2 & _ & H3 & ->).
    unfold chains_of in *. simpl.
    apply Forall_cons in IH as [I1 IH]. apply Forall_cons in IH as [I2 IH].
    apply Forall_cons in IH as [I3 _].
    repeat apply Forall_cons_2; [| | |apply Forall_nil_2]; eauto using seal_keeps.
  - unfold on_access in Hop. apply zoom_Ok in Hop as (s' & Hop & ->).
    apply grant_access_Ok in Hop as (b & t & Hs & ->).
    unfold chains_of in *. simpl in *.
    apply Forall_cons in IH as [I1 IH]. apply Forall_cons in IH as [I2 IH].
    apply Forall_cons in IH as [I3 _].
    repeat apply Forall_cons_2; [| | |apply Forall_nil_2]; eauto using seal_keeps.
  - unfold on_index in Hop. apply zoom_Ok in Hop as (s' & Hop & ->).
    apply update_index_Ok in Hop as (b & Hs).
    unfold chains_of in *. simpl in *.
    apply Forall_cons in IH as [I1 IH]. apply Forall_cons in IH as [I2 IH].
    apply Forall_cons in IH as [I3 _].
    repeat apply Forall_cons_2; [| | |apply Forall_nil_2]; eauto using seal_keeps.
  - unfold on_file in Hop. apply zoom_Ok in Hop as (s' & Hop & ->).
    apply add_user_Ok in Hop as (b & t & Hs & ->).
    unfold chains_of in *. simpl in *.
    apply Forall_cons in IH as [I1 IH]. apply Forall_cons in IH as [I2 IH].
    apply Forall_cons in IH as [I3 _].
    repeat apply Forall_cons_2; [| | |apply Forall_nil_2]; eauto using seal_keeps.
Qed.

(** C1.  In every state reached from new storage by [add_file],
    [grant_access], [update_index] and [add_user], each of the three chains
    is linked at every position [1 .. len - 1]: the block there holds the
    digest of its predecessor as [prev_hash], its index is the predecessor's
    plus one, and its proof is admitted after the predecessor's. *)
Theorem chain_linkage v E w c (i : nat) :
  reachable v E w → c ∈ chains_of w → (1 ≤ i ≤ length c - 1)%nat →
  ∃ b p, c !! i = Some b ∧ c !! (i - 1)%nat = Some p ∧
         prev_hash b = calculate_hash p ∧
         index b = index p + 1 ∧
         verifying_proof (proof_no b) (proof_no p) = true.
Proof.
  intros Hr Hc Hi. apply reachable_linked in Hr.
  rewrite Forall_forall in Hr. destruct (Hr c Hc) as [_ Hl]. by apply Hl.
Qed.

(* ===================================================================== *)
(** ** Running [BlockChainBackup.py] once the searches are known *)
(* ===================================================================== *)

Lemma seal_backup fuel now fs bc d l p :
  last (chain bc) = Some l →
  proof_of_work fuel (proof_no l) = Some p →
  seal BlockChainBackup fuel now (fs, set_current_data d bc)
  = Ok (mkBlock (Z.of_nat (length (chain bc))) p (calculate_hash l) d now,
        append_block
          (mkBlock (Z.of_nat (length (chain bc))) p (calculate_hash l) d now)
          (fs, bc)).
Proof.
  intros Hl Hp. rewrite (seal_unfold _ _ _ _ l p) by done.
  by rewrite construct_block_backup.
Qed.

Lemma update_index_backup fuel stamp now fl (s : store) l p :
  last (chain s.2) = Some l →
  proof_of_work fuel (proof_no l) = Some p →
  update_index BlockChainBackup fuel stamp now fl s
  = Ok (tt, seal_with p now (IndexRecord fl stamp) s).
Proof.
  intros Hl Hp. destruct s as [fs bc]. simpl in *.
  unfold update_index, seal_with. unfold_M. simpl.
  rewrite (seal_backup _ _ fs bc _ l p) by done. by rewrite Hl.
Qed.

Lemma grant_access_backup fuel stamp now f o u (s : access_store) l p :
  last (chain (ab_self s.2)) = Some l →
  proof_of_work fuel (proof_no l) = Some p →
  grant_access BlockChainBackup fuel stamp now f o u s
  = Ok (tt, ((seal_with p now (GrantRecord f o u stamp) (s.1, ab_self s.2)).1,
             mkAccessBlockchain
               (seal_with p now (GrantRecord f o u stamp) (s.1, ab_self s.2)).2
               (storage_file s.2))).
Proof.
  intros Hl Hp. destruct s as [fs [bc sf]]. simpl in *.
  unfold grant_access, seal_with. unfold_zoom. unfold_M. simpl.
  rewrite (seal_backup _ _ fs bc _ l p) by done. by rewrite Hl.
Qed.

Lemma add_file_backup E fuel clk file_path file_date file_content owner w
    l1 l2 l3 p1 p2 p3 :
  last (chain (fb_self (file_blockchain w))) = Some l1 →
  last (chain (ab_self (access_blockchain w))) = Some l2 →
  last (chain (index_blockchain w)) = Some l3 →
  proof_of_work fuel (proof_no l1) = Some p1 →
  proof_of_work fuel (proof_no l2) = Some p2 →
  proof_of_work fuel (proof_no l3) = Some p3 →
  is_Some (file_entries
             (records_of
                (chain (seal_with p1 (t_file_block clk)
                          (FileRecord (relpath E file_path) file_date
                                      (bytes_hex file_content) owner)
                          (files w, fb_self (file_blockchain w))).2))) →
  add_file BlockChainBackup E fuel clk file_path file_date file_content owner w
  = Ok (tt, add_file_effect E p1 p2 p3 clk file_path file_date file_content owner w).
Proof.
  destruct w as [fs [fbc fi us] [abc sf] ibc]. simpl.
  intros Hl1 Hl2 Hl3 Hp1 Hp2 Hp3 [fl Hfl].
  unfold add_file, add_file_effect, grant_access, save_access_chain, get_file_list,
    update_index, update_file_index, seal_with in *.
  unfold_zoom. unfold_M. simpl in *.
  rewrite (seal_backup _ _ fs fbc _ l1 p1) by done.
  simpl.
  rewrite (seal_backup _ _ _ abc _ l2 p2) by done.
  simpl. rewrite Hl1 in *. simpl in *. rewrite Hfl. simpl.
  rewrite (seal_backup _ _ _ ibc _ l3 p3) by done.
  rewrite Hl2, Hl3. reflexivity.
Qed.

Lemma demo_add_file t :
  add_file BlockChainBackup plain_env genesis_fuel demo_clock "f.txt" t
           ["h"%byte; "i"%byte] "alice" demo_world
  = Ok (tt, demo_world_with_file t).
Proof.
  refine (add_file_backup plain_env genesis_fuel demo_clock "f.txt" t _ "alice"
            demo_world (genesis_block _) (genesis_block _) (genesis_block _)
            88914 88914 88914 eq_refl eq_refl eq_refl
            proof_of_work_genesis proof_of_work_genesis proof_of_work_genesis _).
  vm_compute. eauto.
Qed.

Lemma demo_reachable t : reachable BlockChainBackup plain_env (demo_world_with_file t).
Proof.
  eapply reach_add_file; [|apply demo_add_file].
  apply (reach_new _ _ "default" "1700000000.25" "1700000000.5" "1700000000.5"
                   "1700000000.75").
  apply new_world_fresh.
Qed.

Lemma chain_linkage_witness :
  ∃ b p,
    chain (fb_self (file_blockchain (demo_world_with_file "2023-11-14 22:13:20")))
      !! 1%nat = Some b ∧
    chain (fb_self (file_blockchain (demo_world_with_file "2023-11-14 22:13:20")))
      !! (1 - 1)%nat = Some p ∧
    prev_hash b = calculate_hash p ∧
    index b = index p + 1 ∧
    verifying_proof (proof_no b) (proof_no p) = true.
Proof.
  apply (chain_linkage BlockChainBackup plain_env
           (demo_world_with_file "2023-11-14 22:13:20")).
  - apply demo_reachable.
  - left.
  - vm_compute. lia.
Defined.

Lemma construct_block_appends_witness :
  let s : store := (files demo_world, index_blockchain demo_world) in
  let h := calculate_hash (genesis_block "1700000000.75") in
  let b := new_block s.2 88914 h "1700000002.0" in
  length (chain (append_block b s).2) = S (length (chain s.2)) ∧
  (∀ i : nat, (i < length (chain s.2))%nat →
              chain (append_block b s).2 !! i = chain s.2 !! i) ∧
  chain (append_block b s).2 = chain s.2 ++ [b] ∧
  current_data (append_block b s).2 = [] ∧
  construct_block BlockChainBackup "1700000002.0" 88914 h s
  = Ok (new_block s.2 88914 h "1700000002.0",
        append_block (new_block s.2 88914 h "1700000002.0") s).
Proof.
  intros s h b.
  apply (construct_block_appends Main "1700000002.0" 88914 h s b (append_block b s)).
  apply construct_block_main; vm_compute; reflexivity.
Defined.

(* ===================================================================== *)
(** ** Reading back a block sealed in the same run *)
(* ===================================================================== *)

Lemma set_order_single E x : set_order_ok E → set_order E [x] = [x].
Proof. intros HE. apply Permutation_singleton_r, HE. Qed.

Lemma set_order_elem E l x : set_order_ok E → x ∈ set_order E l ↔ x ∈ l.
Proof. intros HE. by rewrite (HE l). Qed.

Lemma set_order_nil E l : set_order_ok E → set_order E l = [] → l = [].
Proof.
  intros HE Hnil. specialize (HE l). rewrite Hnil in HE.
  by apply Permutation_nil_l in HE.
Qed.

(** The windowed check on a freshly started chain, for the position after
    the genesis block and for the position before it. *)
Lemma window_after_genesis E now (target : Z) :
  set_order_ok E → target = 1 ∨ target = -1 →
  BackupPy.verify_chain_integrity E target (plain_store now) = Raise FileNotFoundError.
Proof.
  intros HE Ht. unfold BackupPy.verify_chain_integrity, load_adjacent_blocks.
  unfold_M.
  destruct Ht as [-> | ->].
  - change (chunk_index (plain_store now).2 !! 1) with (@None string).
    change (chunk_index (plain_store now).2 !! (1 + 1)) with (@None string).
    change (chunk_index (plain_store now).2 !! (1 - 1))
      with (Some "blockchain_data/default_block_0.pkl").
    cbv beta iota zeta.
    change (bool_decide (1 > 0)) with true. cbv beta iota.
    change (set_add "blockchain_data/default_block_0.pkl" [])
      with ["blockchain_data/default_block_0.pkl"].
    rewrite set_order_single by done. reflexivity.
  - change (chunk_index (plain_store now).2 !! (-1)) with (@None string).
    change (chunk_index (plain_store now).2 !! (-1 - 1)) with (@None string).
    change (chunk_index (plain_store now).2 !! (-1 + 1))
      with (Some "blockchain_data/default_block_0.pkl").
    cbv beta iota zeta.
    change (bool_decide (-1 > 0)) with false. cbv beta iota.
    change (set_add "blockchain_data/default_block_0.pkl" [])
      with ["blockchain_data/default_block_0.pkl"].
    rewrite set_order_single by done. reflexivity.
Qed.

Lemma plain_store_init now :
  Blockchain_init BlockChainBackup now "blockchain_data" 1 "default" ∅
  = Ok (tt, plain_store now).
Proof. apply Blockchain_init_fresh; [done|by apply listdir_nil]. Qed.

(** C10.  On a chain just started on empty storage with the default
    arguments, [chunk_index] has an entry for position 0 only; the windowed
    check for the position after the tail, and for position -1, raises
    [FileNotFoundError] where the claim expects [False]: the neighbour's
    entry, written by [save_block], already holds the storage directory,
    and [load_block] joins the directory to it once more. *)
Theorem verify_window_raises_beside_genesis E now :
  set_order_ok E →
  Blockchain_init BlockChainBackup now "blockchain_data" 1 "default" ∅
  = Ok (tt, plain_store now)
  ∧ chunk_index (plain_store now).2 !! 1 = None
  ∧ chunk_index (plain_store now).2 !! (-1) = None
  ∧ BackupPy.verify_chain_integrity E 1 (plain_store now) = Raise FileNotFoundError
  ∧ BackupPy.verify_chain_integrity E (-1) (plain_store now) = Raise FileNotFoundError.
Proof.
  intros HE. split; [apply plain_store_init|].
  split; [reflexivity|]. split; [reflexivity|].
  split; apply window_after_genesis; auto.
Qed.

Lemma plain_env_ok : set_order_ok plain_env.
Proof. intros l. reflexivity. Qed.

Lemma verify_window_raises_beside_genesis_witness :
  Blockchain_init BlockChainBackup "1700000000.0" "blockchain_data" 1 "default" ∅
  = Ok (tt, plain_store "1700000000.0")
  ∧ chunk_index (plain_store "1700000000.0").2 !! 1 = None
  ∧ chunk_index (plain_store "1700000000.0").2 !! (-1) = None
  ∧ BackupPy.verify_chain_integrity plain_env 1 (plain_store "1700000000.0")
    = Raise FileNotFoundError
  ∧ BackupPy.verify_chain_integrity plain_env (-1) (plain_store "1700000000.0")
    = Raise FileNotFoundError.
Proof.
  apply (verify_window_raises_beside_genesis plain_env "1700000000.0").
  intros l. reflexivity.
Defined.

Lemma load_adjacent_blocks_unfold E block_index (s : store) :
  load_adjacent_blocks E block_index s
  = for_each load_block (set_order E (adjacent_files (chunk_index s.2) block_index)) s.
Proof. reflexivity. Qed.

Lemma load_block_unreadable (s : store) f :
  unreadable s f → load_block f s = Raise FileNotFoundError.
Proof.
  unfold unreadable, load_block, read_block. unfold_M. simpl. by intros ->.
Qed.

Lemma for_each_load_block_unreadable (s : store) l :
  l ≠ [] → (∀ f, f ∈ l → unreadable s f) →
  for_each load_block l s = Raise FileNotFoundError.
Proof.
  destruct l as [|f r]; [done|]. intros _ Hall. simpl. unfold bind.
  rewrite load_block_unreadable; [done|]. apply Hall. left.
Qed.

(** When no file named by the entries around [block_index] can be opened,
    loading the window raises. *)
Lemma load_adjacent_blocks_unreadable E block_index (s : store) :
  set_order_ok E →
  adjacent_files (chunk_index s.2) block_index ≠ [] →
  (∀ f, f ∈ adjacent_files (chunk_index s.2) block_index → unreadable s f) →
  load_adjacent_blocks E block_index s = Raise FileNotFoundError.
Proof.
  intros HE Hne Hall. rewrite load_adjacent_blocks_unfold.
  apply for_each_load_block_unreadable.
  - intros Hnil. by apply set_order_nil in Hnil.
  - intros f Hf. apply Hall. by apply (set_order_elem E).
Qed.

Lemma get_file_content_unreadable v E file_name owner is_shared (s : file_store)
    block_index :
  set_order_ok E →
  file_index s.2 !! file_name = Some block_index →
  (v = Main → MainPy.verify_chain_integrity (chain (fb_self s.2)) = true) →
  adjacent_files (chunk_index (fb_self s.2)) block_index ≠ [] →
  (∀ f, f ∈ adjacent_files (chunk_index (fb_self s.2)) block_index →
        unreadable (s.1, fb_self s.2) f) →
  get_file_content v E file_name owner is_shared s = Raise FileNotFoundError.
Proof.
  intros HE Hfi Hv Hne Hall.
  pose proof (load_adjacent_blocks_unreadable E block_index (s.1, fb_self s.2)
                HE Hne Hall) as Hload.
  unfold get_file_content, read_path_check. unfold_zoom. unfold_M. simpl.
  rewrite Hfi. destruct v.
  - unfold BackupPy.verify_chain_integrity. unfold_M. by rewrite Hload.
  - simpl. rewrite Hv by done. simpl. by rewrite Hload.
Qed.

Lemma seal_Ok_with v fuel now r (s : store) b s' :
  seal v fuel now (s.1, set_current_data (current_data s.2 ++ [r]) s.2) = Ok (b, s') →
  ∃ p, s' = seal_with p now r s
       ∧ (v = Main → MainPy.verify_chain_integrity (chain s'.2) = true).
Proof.
  intros H. apply seal_Ok in H as (l & p & Hl & _ & -> & -> & Hv).
  exists p. split; [|done]. unfold seal_with. simpl in Hl. by rewrite Hl.
Qed.

(** A call of [add_file] that returns leaves the world of [add_file_effect]
    for the three proofs it found. *)
Lemma add_file_Ok_effect v E fuel clk file_path file_date file_content owner w w' :
  add_file v E fuel clk file_path file_date file_content owner w = Ok (tt, w') →
  ∃ p1 p2 p3,
    w' = add_file_effect E p1 p2 p3 clk file_path file_date file_content owner w
    ∧ (v = Main →
       MainPy.verify_chain_integrity (chain (fb_self (file_blockchain w'))) = true).
Proof.
  intros Hadd.
  apply add_file_Ok in Hadd
    as (b1 & s1 & b2 & s2 & b3 & s3 & fl & H1 & H2 & Hfl & H3 & ->).
  apply (seal_Ok_with _ _ _ _ (files w, fb_self (file_blockchain w))) in H1
    as (p1 & -> & Hv).
  apply (seal_Ok_with _ _ _ _ (_, ab_self (access_blockchain w))) in H2
    as (p2 & -> & _).
  apply (seal_Ok_with _ _ _ _ (_, index_blockchain w)) in H3 as (p3 & -> & _).
  exists p1, p2, p3. split; [|done].
  unfold add_file_effect. cbv zeta. by rewrite Hfl.
Qed.

(** C6.  A program started on empty storage under the name [default] adds
    [f.txt] with content [b"hi"] for [alice].  The file is then indexed at
    block 1, and [get_file_content] for it raises [FileNotFoundError],
    whoever asks and whatever the shared flag, in both source files: the
    entries [save_block] put in [chunk_index] hold the storage directory,
    and [load_block] joins the directory to them once more. *)
Theorem get_file_raises_after_add_file v E fuel clk t g1 g2 g3 w' owner is_shared :
  set_order_ok E → relpath E "f.txt" = "f.txt" →
  add_file v E fuel clk "f.txt" t ["h"%byte; "i"%byte] "alice"
           (fresh_world "default" g1 g2 g3) = Ok (tt, w') →
  file_index (file_blockchain w') !! "f.txt" = Some 1
  ∧ get_file_content v E "f.txt" owner is_shared (files w', file_blockchain w')
    = Raise FileNotFoundError.
Proof.
  intros HE Hrel Hadd.
  apply add_file_Ok_effect in Hadd as (p1 & p2 & p3 & -> & Hv).
  unfold add_file_effect in *. rewrite Hrel in *. cbv zeta in *.
  split; [vm_compute; reflexivity|].
  apply (get_file_content_unreadable _ _ _ _ _ _ 1); [done| |done| |].
  - vm_compute. reflexivity.
  - vm_compute. done.
  - intros f Hf. vm_compute in Hf.
    apply elem_of_cons in Hf as [->|Hf]; [vm_compute; reflexivity|].
    apply elem_of_cons in Hf as [->|Hf]; [vm_compute; reflexivity|].
    by apply elem_of_nil in Hf.
Qed.

Lemma get_file_raises_after_add_file_witness :
  file_index (file_blockchain (demo_world_with_file "2023-11-14 22:13:20"))
    !! "f.txt" = Some 1
  ∧ get_file_content BlockChainBackup plain_env "f.txt" "bob" true
      (files (demo_world_with_file "2023-11-14 22:13:20"),
       file_blockchain (demo_world_with_file "2023-11-14 22:13:20"))
    = Raise FileNotFoundError.
Proof.
  apply (get_file_raises_after_add_file BlockChainBackup plain_env genesis_fuel
           demo_clock "2023-11-14 22:13:20"
           "1700000000.25" "1700000000.5" "1700000000.75").
  - intros l. reflexivity.
  - reflexivity.
  - apply demo_add_file.
Defined.

(* ===================================================================== *)
(** ** The integrity check of the read path *)
(* ===================================================================== *)

Lemma outcome_bind {S A B : Type} (m : M S A) (k : A → M S B) s a s' :
  m s = Ok (a, s') → outcome (bind m k s) = outcome (k a s').
Proof. intros H. by rewrite (bind_eval _ _ _ _ _ H). Qed.

Lemma outcome_Ok {S A : Type} (r : res (A * S)) a :
  outcome r = Ok a → ∃ s', r = Ok (a, s').
Proof. destruct r as [[a' s']| |]; simpl; [|done|done]. intros [= ->]. eauto. Qed.

(** C9.  For a path present in [file_index], when the integrity check that
    [get_file_content] runs returns [False], [get_file_content] returns
    [None]: no bytes of the file. *)
Theorem failed_check_gives_no_content v E file_name owner is_shared
    (s : file_store) block_index :
  file_index s.2 !! file_name = Some block_index →
  outcome (read_path_check v E block_index s) = Ok false →
  outcome (get_file_content v E file_name owner is_shared s) = Ok None.
Proof.
  intros Hfi Hcheck. apply outcome_Ok in Hcheck as [s' Hcheck].
  unfold get_file_content. unfold bind at 1. unfold gets. rewrite Hfi.
  by rewrite (outcome_bind _ _ _ _ _ Hcheck).
Qed.

(** Conversely, content comes back only after the check returned [True]. *)
Lemma content_needs_passed_check v E file_name owner is_shared (s : file_store) bs :
  outcome (get_file_content v E file_name owner is_shared s) = Ok (Some bs) →
  ∃ block_index,
    file_index s.2 !! file_name = Some block_index
    ∧ outcome (read_path_check v E block_index s) = Ok true.
Proof.
  unfold get_file_content. unfold bind at 1. unfold gets.
  destruct (file_index s.2 !! file_name) as [i|]; [|done].
  intros H. exists i. split; [done|].
  unfold bind in H.
  destruct (read_path_check v E i s) as [[[] s']| |]; simpl in *; done.
Qed.

Lemma tampered_store_loaded now :
  FileBlockchain_init BlockChainBackup now "file_blockchain" 1 "default"
    (persist "file_blockchain" "default" tampered_chain ∅)
  = Ok (tt, tampered_store).
Proof. vm_compute. exact eq_refl. Qed.

Lemma failed_check_gives_no_content_witness :
  outcome (get_file_content BlockChainBackup plain_env "f.txt" "alice" false
             tampered_store) = Ok None.
Proof.
  apply (failed_check_gives_no_content BlockChainBackup plain_env "f.txt" "alice"
           false tampered_store 1); vm_compute; reflexivity.
Defined.

(* ===================================================================== *)
(** ** Registering users *)
(* ===================================================================== *)

(** In both source files a name already in [users] is refused and nothing
    changes. *)
Lemma register_user_known v fuel now username password (s : file_store) h :
  users s.2 !! username = Some h →
  register_user v fuel now username password s = Ok (false, s).
Proof. intros Hu. unfold register_user. unfold_M. by rewrite Hu. Qed.

(** In [main.py] a new name is sealed into a block of its own. *)
Lemma register_user_main fuel now username password (s s' : file_store) r :
  users s.2 !! username = None →
  register_user Main fuel now username password s = Ok (r, s') →
  r = true
  ∧ users s'.2 !! username = Some (sha256_hex password)
  ∧ ∃ b, chain (fb_self s'.2) = chain (fb_self s.2) ++ [b]
         ∧ data b = current_data (fb_self s.2)
                    ++ [UserRecord username (sha256_hex password)].
Proof.
  intros Hu. unfold register_user. unfold bind at 1. unfold gets. rewrite Hu.
  intros H. apply bind_Ok in H as ([] & s1 & Hadd & Hret).
  injection Hret as <- <-.
  apply add_user_Ok in Hadd as (b & t & Hseal & ->).
  apply seal_Ok in Hseal as (l & p & _ & _ & -> & -> & _). simpl.
  split; [done|]. split; [by rewrite lookup_insert_eq|]. eauto.
Qed.

(** C5.  In [BlockChainBackup.py], registering a name that is not in
    [users] returns [True] and stores the digest of the secret, and that is
    all: the chain, the pending records and the files are as they were, so
    no credential record is appended and no block is sealed. *)
Theorem register_user_backup_seals_nothing fuel now username password (s : file_store) :
  users s.2 !! username = None →
  ∃ s', register_user BlockChainBackup fuel now username password s = Ok (true, s')
        ∧ users s'.2 !! username = Some (sha256_hex password)
        ∧ chain (fb_self s'.2) = chain (fb_self s.2)
        ∧ current_data (fb_self s'.2) = current_data (fb_self s.2)
        ∧ s'.1 = s.1.
Proof.
  intros Hu. eexists. split.
  - unfold register_user. unfold_M. rewrite Hu. reflexivity.
  - simpl. by rewrite lookup_insert_eq.
Qed.

Lemma register_user_backup_seals_nothing_witness :
  ∃ s', register_user BlockChainBackup genesis_fuel "1700000004.0" "a" "p"
          (files demo_world, file_blockchain demo_world) = Ok (true, s')
        ∧ users s'.2 !! "a" = Some (sha256_hex "p")
        ∧ chain (fb_self s'.2) = chain (fb_self (file_blockchain demo_world))
        ∧ current_data (fb_self s'.2)
          = current_data (fb_self (file_blockchain demo_world))
        ∧ s'.1 = files demo_world.
Proof.
  apply (register_user_backup_seals_nothing genesis_fuel "1700000004.0" "a" "p"
           (files demo_world, file_blockchain demo_world)).
  reflexivity.
Defined.

(* ===================================================================== *)
(** ** Access checks *)
(* ===================================================================== *)

Lemma has_access_outcome file_name user (s : access_store) :
  outcome (has_access file_name user s)
  = find_access file_name user (records_of (chain (ab_self s.2))).
Proof.
  unfold has_access. unfold_zoom. unfold_M. simpl.
  by destruct (find_access _ _ _).
Qed.

Lemma find_access_grants file_name user records :
  Forall is_grant records →
  (find_access file_name user records = Ok true ↔
   ∃ n o g t, GrantRecord n o g t ∈ records ∧
              basename n = basename file_name ∧ (g = user ∨ o = user))
  ∧ (find_access file_name user records = Ok true
     ∨ find_access file_name user records = Ok false).
Proof.
  induction 1 as [|r rs Hr _ [IH1 IH2]].
  - split; [|by right]. split; [done|].
    intros (n & o & g & t & Hin & _). by apply elem_of_nil in Hin.
  - destruct r as [| |n o g t|]; try done. simpl.
    destruct (String.eqb (basename n) (basename file_name)) eqn:Hb.
    + apply String.eqb_eq in Hb.
      destruct (String.eqb g user) eqn:Hg.
      { apply String.eqb_eq in Hg. split; [|by left].
        split; [|done]. intros _. exists n, o, g, t.
        split; [left|]. auto. }
      destruct (String.eqb o user) eqn:Ho.
      { apply String.eqb_eq in Ho. split; [|by left].
        split; [|done]. intros _. exists n, o, g, t.
        split; [left|]. auto. }
      apply String.eqb_neq in Hg, Ho. split; [|done].
      rewrite IH1. split.
      * intros (n' & o' & g' & t' & Hin & Hrest).
        exists n', o', g', t'. split; [by right|done].
      * intros (n' & o' & g' & t' & Hin & Hbn & Hu).
        apply elem_of_cons in Hin as [[= -> -> -> ->]|Hin]; [by destruct Hu|].
        exists n', o', g', t'. done.
    + apply String.eqb_neq in Hb. split; [|done].
      rewrite IH1. split.
      * intros (n' & o' & g' & t' & Hin & Hrest).
        exists n', o', g', t'. split; [by right|done].
      * intros (n' & o' & g' & t' & Hin & Hbn & Hu).
        apply elem_of_cons in Hin as [[= -> -> -> ->]|Hin]; [done|].
        exists n', o', g', t'. done.
Qed.

(** C7.  On an access chain, whose records are all grants, [has_access]
    returns, and returns [True] exactly when some record of some block has
    the base name of the path and names the user as grantee or as granter.
    After [grant_access("f.txt", "alice", "bob")] on a chain just started,
    [has_access("f.txt", "bob")] is [True] and [has_access("f.txt", "carol")]
    is [False]. *)
Theorem has_access_iff v fuel stamp now name g1 g2 g3 (s s1 : access_store)
    file_name user :
  Forall is_grant (records_of (chain (ab_self s.2))) →
  grant_access v fuel stamp now "f.txt" "alice" "bob"
    (files (fresh_world name g1 g2 g3), access_blockchain (fresh_world name g1 g2 g3))
  = Ok (tt, s1) →
  (outcome (has_access file_name user s) = Ok true ↔
   ∃ n o g t, GrantRecord n o g t ∈ records_of (chain (ab_self s.2)) ∧
              basename n = basename file_name ∧ (g = user ∨ o = user))
  ∧ (outcome (has_access file_name user s) = Ok true
     ∨ outcome (has_access file_name user s) = Ok false)
  ∧ outcome (has_access "f.txt" "bob" s1) = Ok true
  ∧ outcome (has_access "f.txt" "carol" s1) = Ok false.
Proof.
  intros Hgrants Hgrant. rewrite !has_access_outcome.
  destruct (find_access_grants file_name user _ Hgrants) as [Hiff Hret].
  split; [done|]. split; [done|].
  apply grant_access_Ok in Hgrant as (b & t & Hseal & ->).
  apply seal_Ok in Hseal as (l & p & _ & _ & -> & -> & _).
  split; reflexivity.
Qed.

Lemma demo_grant_access :
  grant_access BlockChainBackup genesis_fuel "2023-11-14 22:13:23" "1700000003.0"
    "f.txt" "alice" "bob" (files demo_world, access_blockchain demo_world)
  = Ok (tt, demo_access_store).
Proof.
  exact (grant_access_backup genesis_fuel "2023-11-14 22:13:23" "1700000003.0"
           "f.txt" "alice" "bob" (files demo_world, access_blockchain demo_world)
           (genesis_block _) 88914 eq_refl proof_of_work_genesis).
Qed.

Lemma has_access_iff_witness :
  (outcome (has_access "backup/f.txt" "alice" demo_access_store) = Ok true ↔
   ∃ n o g t,
     GrantRecord n o g t ∈ records_of (chain (ab_self demo_access_store.2)) ∧
     basename n = basename "backup/f.txt" ∧ (g = "alice" ∨ o = "alice"))
  ∧ (outcome (has_access "backup/f.txt" "alice" demo_access_store) = Ok true
     ∨ outcome (has_access "backup/f.txt" "alice" demo_access_store) = Ok false)
  ∧ outcome (has_access "f.txt" "bob" demo_access_store) = Ok true
  ∧ outcome (has_access "f.txt" "carol" demo_access_store) = Ok false.
Proof.
  apply (has_access_iff BlockChainBackup genesis_fuel "2023-11-14 22:13:23"
           "1700000003.0" "default" "1700000000.25" "1700000000.5" "1700000000.75"
           demo_access_store demo_access_store "backup/f.txt" "alice").
  - vm_compute. repeat constructor.
  - apply demo_grant_access.
Defined.

(* ===================================================================== *)
(** ** Reloading persisted blocks *)
(* ===================================================================== *)

Ltac expose_index b H :=
  destruct b as [? ? ? ? ?]; simpl in H; subst.

(** C2.  Eleven blocks with indices 0 to 10, each saved under the name
    [save_block] gives it, are reloaded by [BlockChainBackup.py] in the
    order of the file names: the block of index 10 comes third, before the
    block of index 2, and the reloaded chain is not the persisted one. *)
Theorem load_chain_backup_follows_names now (c : list Block) :
  length c = 11%nat →
  (∀ (i : nat) b, c !! i = Some b → index b = Z.of_nat i) →
  ∃ d, mapM (λ i : nat, c !! i) name_order = Some d
       ∧ loaded_chain
           (load_chain BlockChainBackup now
              (persist "file_blockchain" "default" c ∅,
               mkBlockchain [] [] ∅ "file_blockchain" 1 "default"))
         = Ok d
       ∧ d ≠ c.
Proof.
  intros Hlen Hidx.
  destruct c as [|b0 [|b1 [|b2 [|b3 [|b4 [|b5 [|b6 [|b7 [|b8 [|b9 [|b10 [|? ?]]]]]]]]]]]];
    try done.
  pose proof (Hidx 0%nat b0 eq_refl) as H0.
  pose proof (Hidx 1%nat b1 eq_refl) as H1.
  pose proof (Hidx 2%nat b2 eq_refl) as H2.
  pose proof (Hidx 3%nat b3 eq_refl) as H3.
  pose proof (Hidx 4%nat b4 eq_refl) as H4.
  pose proof (Hidx 5%nat b5 eq_refl) as H5.
  pose proof (Hidx 6%nat b6 eq_refl) as H6.
  pose proof (Hidx 7%nat b7 eq_refl) as H7.
  pose proof (Hidx 8%nat b8 eq_refl) as H8.
  pose proof (Hidx 9%nat b9 eq_refl) as H9.
  pose proof (Hidx 10%nat b10 eq_refl) as H10.
  clear Hidx Hlen.
  expose_index b0 H0. expose_index b1 H1. expose_index b2 H2. expose_index b3 H3.
  expose_index b4 H4. expose_index b5 H5. expose_index b6 H6. expose_index b7 H7.
  expose_index b8 H8. expose_index b9 H9. expose_index b10 H10.
  eexists. split; [reflexivity|]. split; [vm_compute; reflexivity|].
  intros [= ]. 
Qed.

Lemma load_chain_backup_follows_names_witness :
  ∃ d, mapM (λ i : nat, numbered_blocks !! i) name_order = Some d
       ∧ loaded_chain
           (load_chain BlockChainBackup "1700000005.0"
              (persist "file_blockchain" "default" numbered_blocks ∅,
               mkBlockchain [] [] ∅ "file_blockchain" 1 "default"))
         = Ok d
       ∧ d ≠ numbered_blocks.
Proof.
  apply (load_chain_backup_follows_names "1700000005.0" numbered_blocks).
  - reflexivity.
  - intros i b. do 11 (destruct i as [|i]; [by intros [= <-]|]). done.
Defined.

(** [main.py] sorts the same file names by the index they embed. *)
Lemma block_files_main_by_index :
  block_files Main "file_blockchain" "default"
    (persist "file_blockchain" "default" numbered_blocks ∅)
  = Some (map (λ i : nat, block_file_name "default" (Z.of_nat i)) (seq 0 11)).
Proof. vm_compute. reflexivity. Qed.

Lemma block_files_backup_by_name :
  block_files BlockChainBackup "file_blockchain" "default"
    (persist "file_blockchain" "default" numbered_blocks ∅)
  = Some (map (λ i : nat, block_file_name "default" (Z.of_nat i)) name_order).
Proof. vm_compute. reflexivity. Qed.

(** After [load_chain] has rebuilt [chunk_index] from the directory, the
    file added before can be read: by its owner, not by another user, and
    by anyone when the shared flag is set. *)
Lemma get_file_after_reload t now :
  read_after_reload t now "alice" false = Ok (Some ["h"%byte; "i"%byte])
  ∧ read_after_reload t now "bob" false = Ok None
  ∧ read_after_reload t now "bob" true = Ok (Some ["h"%byte; "i"%byte]).
Proof. repeat split; vm_compute; reflexivity. Qed.

(** On a chain whose [chunk_index] was rebuilt by [load_chain], the windowed
    check of a position without entry returns [False]. *)
Lemma window_outside_after_load :
  outcome (inherited (BackupPy.verify_chain_integrity plain_env 2) tampered_store)
  = Ok false
  ∧ outcome (inherited (BackupPy.verify_chain_integrity plain_env (-1)) tampered_store)
    = Ok false
  ∧ outcome (inherited (BackupPy.verify_chain_integrity plain_env 7) tampered_store)
    = Ok false.
Proof. repeat split; vm_compute; reflexivity. Qed.

(** Both source files reload the two blocks of the file chain of
    [demo_world_with_file] as they were sealed. *)
Lemma load_chain_reproduces_two_blocks v t now :
  loaded_chain
    (load_chain v now
       (files (demo_world_with_file t),
        mkBlockchain [] [] ∅ "file_blockchain" 1 "default"))
  = Ok (chain (fb_self (file_blockchain (demo_world_with_file t)))).
Proof. destruct v; vm_compute; reflexivity. Qed.

(* ===================================================================== *)
(** ** The hexadecimal form of file content *)
(* ===================================================================== *)

Lemma bytes_fromhex_hex2 (b : byte) (r : string) :
  bytes_fromhex (hex2 (Byte.to_N b) +:+ r)
  = match bytes_fromhex r with
    | Some bs => Some (b :: bs)
    | None => None
    end.
Proof. destruct b; reflexivity. Qed.

Lemma bytes_fromhex_bytes_hex (bs : list byte) :
  bytes_fromhex (bytes_hex bs) = Some bs.
Proof.
  induction bs as [|b bs IH]; [done|].
  change (bytes_hex (b :: bs)) with (hex2 (Byte.to_N b) +:+ bytes_hex bs).
  by rewrite bytes_fromhex_hex2, IH.
Qed.

(** X1.  The text [add_file] stores for the content of a file, [b.hex()],
    is turned back into the same bytes by the [bytes.fromhex] of
    [get_file_content]. *)
Theorem bytes_hex_roundtrip (bs : list byte) :
  bytes_fromhex (bytes_hex bs) = Some bs.
Proof.
  induction bs as [|b bs IH]; [done|].
  change (bytes_hex (b :: bs)) with (hex2 (Byte.to_N b) +:+ bytes_hex bs).
  rewrite bytes_fromhex_hex2. by rewrite IH.
Qed.

(* ===================================================================== *)
(** ** Full verification and the strict load of [main.py] *)
(* ===================================================================== *)

Lemma returned_final_state {S : Type} (d : S) (r : res (unit * S)) :
  returned r = true → r = Ok (tt, final_state d r).
Proof. by destruct r as [[[] s]| |]. Qed.

Lemma check_validity_true block prev_block :
  check_validity block prev_block = true ↔ valid_pair block prev_block.
Proof.
  unfold check_validity, valid_pair.
  destruct (Z.eqb_spec (index prev_block + 1) (index block)) as [Hi|Hi]; simpl;
    [|by split; [|intros [? _]]].
  destruct (String.eqb_spec (calculate_hash prev_block) (prev_hash block)) as [Hh|Hh];
    simpl; [|by split; [|intros (_ & ? & _)]].
  destruct (verifying_proof _ _); simpl; [done|].
  by split; [|intros (_ & _ & ?)].
Qed.

Lemma verify_from_pairs prev_block rest :
  verify_from prev_block rest = true ↔
  ∀ (i : nat) b q, (prev_block :: rest) !! S i = Some b →
                   (prev_block :: rest) !! i = Some q → valid_pair b q.
Proof.
  revert prev_block. induction rest as [|x rest IH]; intros p; simpl.
  - split; [|done]. intros _ i b q Hb. by destruct i.
  - destruct (check_validity x p) eqn:Hc; simpl.
    + rewrite IH. apply check_validity_true in Hc. split.
      * intros Hrest [|i] b q Hb Hq; simpl in *; [by simplify_eq|eauto].
      * intros Hall i b q Hb Hq. by apply (Hall (S i)).
    + split; [done|]. intros Hall.
      assert (valid_pair x p) as Hv by (by apply (Hall 0%nat)).
      apply check_validity_true in Hv. congruence.
Qed.

Lemma verify_chain_integrity_pairs c :
  MainPy.verify_chain_integrity c = true ↔
  ∀ (i : nat) b q, c !! S i = Some b → c !! i = Some q → valid_pair b q.
Proof.
  destruct c as [|p rest]; [|apply verify_from_pairs].
  split; [|done]. intros _ i b q Hb. done.
Qed.

Lemma valid_pairs_linked c :
  (∀ (i : nat) b q, c !! S i = Some b → c !! i = Some q → valid_pair b q) →
  linked c.
Proof.
  intros Hall i Hi.
  destruct (lookup_lt_is_Some_2 c i) as [b Hb]; [lia|].
  destruct (lookup_lt_is_Some_2 c (i - 1)) as [q Hq]; [lia|].
  exists b, q. split; [done|]. split; [done|].
  destruct (Hall (i - 1)%nat b q) as (Hidx & Hh & Hv); [|done|].
  - by replace (S (i - 1)) with i by lia.
  - split; [done|]. split; [lia|done].
Qed.

Lemma linked_valid_pairs c (i : nat) b q :
  linked c → c !! S i = Some b → c !! i = Some q → valid_pair b q.
Proof.
  intros Hl Hb Hq.
  destruct (Hl (S i)) as (b' & q' & Hb' & Hq' & Hh & Hidx & Hv).
  { apply lookup_lt_Some in Hb. lia. }
  replace (S i - 1)%nat with i in Hq' by lia. simplify_eq.
  split; [lia|]. split; [done|done].
Qed.

(** X2.  The whole-chain check of [main.py] returns [True] exactly on the
    chains that are linked at every position from 1 on: digest of the
    predecessor as [prev_hash], index one above the predecessor's, proof
    admitted after the predecessor's. *)
Theorem verify_chain_integrity_linked c :
  MainPy.verify_chain_integrity c = true ↔ linked c.
Proof.
  rewrite verify_chain_integrity_pairs. split.
  - apply valid_pairs_linked.
  - intros Hl i b q. by apply linked_valid_pairs.
Qed.

(** X3.  When [load_chain] of [main.py] returns, every block of the chain
    it leaves passes [check_validity] against its predecessor: it does not
    return on storage that fails the check. *)
Theorem load_chain_main_verified now (s s' : store) (i : nat) b q :
  load_chain Main now s = Ok (tt, s') →
  chain s'.2 !! S i = Some b → chain s'.2 !! i = Some q →
  check_validity b q = true.
Proof.
  intros Hload Hb Hq. apply check_validity_true.
  revert i b q Hb Hq. apply verify_chain_integrity_pairs.
  unfold load_chain in Hload.
  do 9 (apply bind_Ok in Hload as (? & ? & _ & Hload)).
  apply bind_Ok in Hload as (c' & s1 & Hc & Hload).
  unfold on_self, gets in Hc. injection Hc as <- <-.
  destruct (MainPy.verify_chain_integrity _) eqn:Hv; [|done].
  simpl in Hload. unfold ret in Hload. by injection Hload as <-.
Qed.

Lemma load_chain_main_verified_witness :
  ∃ b q,
    chain (final_state demo_restart (load_chain Main "1700000006.0" demo_restart)).2
      !! 1%nat = Some b
    ∧ chain (final_state demo_restart (load_chain Main "1700000006.0" demo_restart)).2
        !! 0%nat = Some q
    ∧ check_validity b q = true.
Proof.
  eexists _, _. split; [vm_compute; reflexivity|]. split; [vm_compute; reflexivity|].
  apply (load_chain_main_verified "1700000006.0" demo_restart
           (final_state demo_restart (load_chain Main "1700000006.0" demo_restart))
           0%nat).
  - apply returned_final_state. vm_compute. reflexivity.
  - vm_compute. reflexivity.
  - vm_compute. reflexivity.
Defined.

(* ===================================================================== *)
(** ** What a running program keeps *)
(* ===================================================================== *)

Lemma records_of_snoc c b : records_of (c ++ [b]) = records_of c ++ data b.
Proof. unfold records_of. rewrite map_app, concat_app. simpl. by rewrite app_nil_r. Qed.

Lemma index_files_snoc c b :
  index_files (c ++ [b]) = foldl (index_file_step (index b)) (index_files c) (data b).
Proof. unfold index_files. by rewrite foldl_app. Qed.

Lemma index_users_snoc us c b :
  index_users us (c ++ [b]) = foldl index_user_step (index_users us c) (data b).
Proof. unfold index_users. by rewrite foldl_app. Qed.

Lemma seal_Ok_snoc v fuel now fs bc d b s' :
  seal v fuel now (fs, set_current_data d bc) = Ok (b, s') →
  chain s'.2 = chain bc ++ [b] ∧ data b = d ∧ current_data s'.2 = []
  ∧ index b = Z.of_nat (length (chain bc)).
Proof.
  intros H. apply seal_Ok in H as (l & p & _ & _ & -> & -> & _). done.
Qed.

Lemma reachable_settled v E w : reachable v E w → settled w.
Proof.
  induction 1 as [name t1 t2 t3 t4 w Hnew
                 |fuel clk fp fd fc o w w' _ IH Hop
                 |fuel stamp now f o u w w' _ IH Hop
                 |fuel stamp now fl w w' _ IH Hop
                 |fuel now u p w w' _ _ IH Hop].
  - rewrite new_world_fresh in Hnew. injection Hnew as <-.
    unfold settled. simpl. repeat split; constructor.
  - destruct IH as (Hf & Ha & Hi & Hcf & Hca & Hci & Hfi).
    apply add_file_Ok in Hop
      as (b1 & s1 & b2 & s2 & b3 & s3 & fl & H1 & H2 & _ & H3 & ->).
    apply seal_Ok_snoc in H1 as (Hc1 & Hd1 & Hp1 & _).
    apply seal_Ok_snoc in H2 as (Hc2 & Hd2 & Hp2 & _).
    apply seal_Ok_snoc in H3 as (Hc3 & Hd3 & Hp3 & _).
    unfold settled. simpl. rewrite Hc1, Hc2, Hc3, !records_of_snoc, Hd1, Hd2, Hd3.
    rewrite Hcf, Hca, Hci. simpl.
    repeat split; try done; apply Forall_app; split; try done; by repeat constructor.
  - destruct IH as (Hf & Ha & Hi & Hcf & Hca & Hci & Hfi).
    unfold on_access in Hop. apply zoom_Ok in Hop as (s' & Hop & ->).
    apply grant_access_Ok in Hop as (b & t & Hs & ->).
    apply seal_Ok_snoc in Hs as (Hc & Hd & Hp & _).
    unfold settled. simpl in *. rewrite Hc, records_of_snoc, Hd, Hca. simpl.
    repeat split; try done. apply Forall_app; split; [done|by repeat constructor].
  - destruct IH as (Hf & Ha & Hi & Hcf & Hca & Hci & Hfi).
    unfold on_index in Hop. apply zoom_Ok in Hop as (s' & Hop & ->).
    apply update_index_Ok in Hop as (b & Hs).
    apply seal_Ok_snoc in Hs as (Hc & Hd & Hp & _).
    unfold settled. simpl in *. rewrite Hc, records_of_snoc, Hd, Hci. simpl.
    repeat split; try done. apply Forall_app; split; [done|by repeat constructor].
  - destruct IH as (Hf & Ha & Hi & Hcf & Hca & Hci & Hfi).
    unfold on_file in Hop. apply zoom_Ok in Hop as (s' & Hop & ->).
    apply add_user_Ok in Hop as (b & t & Hs & ->).
    apply seal_Ok_snoc in Hs as (Hc & Hd & Hp & _).
    unfold settled. simpl in *.
    rewrite Hc, records_of_snoc, index_files_snoc, Hd, Hcf. simpl.
    repeat split; try done. apply Forall_app; split; [done|by repeat constructor].
Qed.

(* ===================================================================== *)
(** ** Who a grant gives access to *)
(* ===================================================================== *)

Lemma find_access_last_grant file_name user records n o g t :
  Forall is_grant records →
  basename n = basename file_name → g = user ∨ o = user →
  find_access file_name user (records ++ [GrantRecord n o g t]) = Ok true.
Proof.
  intros Hg Hb Hu.
  assert (Forall is_grant (records ++ [GrantRecord n o g t])) as Hall.
  { apply Forall_app. split; [done|by repeat constructor]. }
  apply (find_access_grants file_name user) in Hall as [Hiff _].
  apply Hiff. exists n, o, g, t. split; [|done].
  apply elem_of_app. right. left.
Qed.

(** X4.  On an access chain, [grant_access] for one path gives the
    grantee, and the granter, access to every path with the same base name,
    whatever its directory. *)
Theorem grant_reaches_same_basename v fuel stamp now file_name owner user_to_share
    (s s' : access_store) asked_path :
  Forall is_grant (records_of (chain (ab_self s.2))) →
  Forall is_grant (current_data (ab_self s.2)) →
  grant_access v fuel stamp now file_name owner user_to_share s = Ok (tt, s') →
  basename asked_path = basename file_name →
  outcome (has_access asked_path user_to_share s') = Ok true
  ∧ outcome (has_access asked_path owner s') = Ok true.
Proof.
  intros Hrec Hpend Hgrant Hbase.
  apply grant_access_Ok in Hgrant as (b & t & Hseal & ->).
  apply seal_Ok_snoc in Hseal as (Hc & Hd & _).
  rewrite !has_access_outcome. simpl. rewrite Hc, records_of_snoc, Hd, app_assoc.
  split; (apply find_access_last_grant; [by apply Forall_app|done|auto]).
Qed.

Lemma grant_reaches_same_basename_witness :
  outcome (has_access "other/dir/f.txt" "bob" demo_access_store) = Ok true
  ∧ outcome (has_access "other/dir/f.txt" "alice" demo_access_store) = Ok true.
Proof.
  apply (grant_reaches_same_basename BlockChainBackup genesis_fuel
           "2023-11-14 22:13:23" "1700000003.0" "f.txt" "alice" "bob"
           (files demo_world, access_blockchain demo_world) demo_access_store
           "other/dir/f.txt").
  - vm_compute. constructor.
  - vm_compute. constructor.
  - apply demo_grant_access.
  - vm_compute. reflexivity.
Defined.

(** X5.  In a running program, once [add_file] has returned, the owner it
    was given has access to the path the file was stored under. *)
Theorem owner_has_access_after_add_file v E fuel clk file_path file_date file_content
    owner w w' :
  reachable v E w →
  add_file v E fuel clk file_path file_date file_content owner w = Ok (tt, w') →
  outcome (has_access (relpath E file_path) owner (files w', access_blockchain w'))
  = Ok true.
Proof.
  intros Hr Hadd.
  apply reachable_settled in Hr as (_ & Ha & _ & _ & Hca & _).
  apply add_file_Ok in Hadd
    as (b1 & s1 & b2 & s2 & b3 & s3 & fl & _ & H2 & _ & _ & ->).
  apply seal_Ok_snoc in H2 as (Hc & Hd & _).
  rewrite has_access_outcome. simpl. rewrite Hc, records_of_snoc, Hd, Hca. simpl.
  apply find_access_last_grant; auto.
Qed.

Lemma demo_world_reachable : reachable BlockChainBackup plain_env demo_world.
Proof.
  apply (reach_new _ _ "default" "1700000000.25" "1700000000.5" "1700000000.5"
                   "1700000000.75").
  apply new_world_fresh.
Qed.

Lemma owner_has_access_after_add_file_witness :
  outcome (has_access "f.txt" "alice"
             (files (demo_world_with_file "2023-11-14 22:13:20"),
              access_blockchain (demo_world_with_file "2023-11-14 22:13:20")))
  = Ok true.
Proof.
  apply (owner_has_access_after_add_file BlockChainBackup plain_env genesis_fuel
           demo_clock "f.txt" "2023-11-14 22:13:20" ["h"%byte; "i"%byte] "alice"
           demo_world (demo_world_with_file "2023-11-14 22:13:20")).
  - apply demo_world_reachable.
  - apply demo_add_file.
Defined.

(* ===================================================================== *)
(** ** Reading a file back *)
(* ===================================================================== *)

Lemma load_block_Ok f (s s' : store) b :
  load_block f s = Ok (b, s') → s' = s ∧ holds_block s f b.
Proof.
  unfold load_block, read_block, holds_block. unfold_M. simpl.
  destruct (s.1 !! _) as [[b'|c]|]; [|done|done].
  by intros [= -> <-].
Qed.

Lemma for_each_load_block_Ok l (s s' : store) bs :
  for_each load_block l s = Ok (bs, s') → s' = s ∧ Forall2 (holds_block s) l bs.
Proof.
  revert bs s'. induction l as [|f l IH]; intros bs s'; simpl.
  - unfold ret. intros [= <- <-]. by split.
  - intros H. apply bind_Ok in H as (b & s1 & Hb & H).
    apply load_block_Ok in Hb as [-> Hb].
    apply bind_Ok in H as (bs' & s2 & Hbs & H).
    apply IH in Hbs as [-> Hbs]. unfold ret in H. injection H as <- <-.
    split; [done|by constructor].
Qed.

Lemma inherited_same_state {A : Type} (m : M store A) (s s' : file_store) a :
  (∀ t t' x, m t = Ok (x, t') → t' = t) →
  inherited m s = Ok (a, s') → s' = s ∧ outcome (m (s.1, fb_self s.2)) = Ok a.
Proof.
  intros Hm H. apply zoom_Ok in H as (t' & H & ->).
  rewrite H. apply Hm in H as ->. by destruct s as [fs [bc fi us]].
Qed.

Lemma load_adjacent_blocks_same_state E i (t t' : store) bs :
  load_adjacent_blocks E i t = Ok (bs, t') → t' = t.
Proof.
  rewrite load_adjacent_blocks_unfold. intros H.
  by apply for_each_load_block_Ok in H as [-> _].
Qed.

Lemma verify_window_same_state E i (t t' : store) r :
  BackupPy.verify_chain_integrity E i t = Ok (r, t') → t' = t.
Proof.
  unfold BackupPy.verify_chain_integrity. intros H.
  apply bind_Ok in H as (bs & t1 & Hl & H).
  apply load_adjacent_blocks_same_state in Hl as ->.
  unfold ret in H.
  repeat match type of H with
         | context [match ?x with _ => _ end] => destruct x
         end; by injection H as _ <-.
Qed.

Lemma read_path_check_same_state v E i (s s' : file_store) r :
  read_path_check v E i s = Ok (r, s') → s' = s.
Proof.
  destruct v; simpl; intros H.
  - apply (inherited_same_state _ _ _ _ (verify_window_same_state E i)) in H
      as [-> _]. done.
  - apply bind_Ok in H as (c & s1 & Hc & H).
    apply inherited_same_state in Hc as [-> _].
    + unfold ret in H. by injection H as _ <-.
    + unfold on_self, gets. by intros t t' x [= _ <-].
Qed.

Lemma find_file_content_sound file_name owner is_shared records bs :
  find_file_content file_name owner is_shared records = Ok (Some bs) →
  ∃ r c o, r ∈ records
    ∧ record_get "file_name" r = Some file_name
    ∧ record_get "owner" r = Some o ∧ (o = owner ∨ is_shared = true)
    ∧ record_get "file_content" r = Some c ∧ bytes_fromhex c = Some bs.
Proof.
  induction records as [|r rest IH]; simpl; [done|].
  assert (find_file_content file_name owner is_shared rest = Ok (Some bs) →
          ∃ r0 c o, r0 ∈ r :: rest
            ∧ record_get "file_name" r0 = Some file_name
            ∧ record_get "owner" r0 = Some o ∧ (o = owner ∨ is_shared = true)
            ∧ record_get "file_content" r0 = Some c ∧ bytes_fromhex c = Some bs)
    as Hrest.
  { intros H. apply IH in H as (r0 & c & o & Hin & H).
    exists r0, c, o. split; [by right|done]. }
  destruct (record_get "file_name" r) as [n|] eqn:Hn; [|done].
  destruct (String.eqb n file_name) eqn:Hnf; [|done].
  apply String.eqb_eq in Hnf as ->.
  destruct (record_get "owner" r) as [o|] eqn:Ho; [|done].
  destruct (String.eqb o owner || is_shared) eqn:Hoo; [|done].
  destruct (record_get "file_content" r) as [c|] eqn:Hc; [|done].
  destruct (bytes_fromhex c) as [bs'|] eqn:Hbs; [|done].
  intros [= <-]. exists r, c, o. split; [left|].
  repeat (split; [done|]). split; [|done].
  apply orb_true_iff in Hoo as [Hoo|Hoo]; [left; by apply String.eqb_eq|by right].
Qed.

Lemma get_file_content_same_state v E file_name owner is_shared (s s' : file_store) r :
  get_file_content v E file_name owner is_shared s = Ok (r, s') → s' = s.
Proof.
  unfold get_file_content. intros H.
  apply bind_Ok in H as (fi & s0 & Hfi & H).
  unfold gets in Hfi. injection Hfi as <- <-.
  destruct (file_index s.2 !! file_name) as [block_index|];
    [|unfold ret in H; by injection H as _ <-].
  apply bind_Ok in H as (ok & s1 & Hok & H).
  apply read_path_check_same_state in Hok as ->.
  destruct ok; simpl in H; [|unfold ret in H; by injection H as _ <-].
  apply bind_Ok in H as (blocks & s1 & Hl & H).
  apply (inherited_same_state _ _ _ _ (load_adjacent_blocks_same_state _ _)) in Hl
    as [-> _].
  unfold lift_res in H. destruct (find_file_content _ _ _ _); [|done|done].
  by injection H as _ <-.
Qed.

(** X6.  [get_file_content] only reads.  When it returns bytes, the state is
    the one it started from, and the bytes are the decoded [file_content]
    of a record with that file name, stored in a block file of the window
    around the indexed position; the record's owner is the caller unless
    the read is a shared one. *)
Theorem get_file_content_sound v E file_name owner is_shared (s s' : file_store) bs :
  get_file_content v E file_name owner is_shared s = Ok (Some bs, s') →
  s' = s
  ∧ ∃ block_index f b r c o,
      file_index s.2 !! file_name = Some block_index
      ∧ f ∈ set_order E (adjacent_files (chunk_index (fb_self s.2)) block_index)
      ∧ holds_block (s.1, fb_self s.2) f b
      ∧ r ∈ data b
      ∧ record_get "file_name" r = Some file_name
      ∧ record_get "owner" r = Some o ∧ (o = owner ∨ is_shared = true)
      ∧ record_get "file_content" r = Some c ∧ bytes_fromhex c = Some bs.
Proof.
  unfold get_file_content. intros H.
  apply bind_Ok in H as (fi & s0 & Hfi & H).
  unfold gets in Hfi. injection Hfi as <- <-.
  destruct (file_index s.2 !! file_name) as [block_index|] eqn:Hidx;
    [|by unfold ret in H].
  apply bind_Ok in H as (ok & s1 & Hok & H).
  apply read_path_check_same_state in Hok as ->.
  destruct ok; simpl in H; [|by unfold ret in H].
  apply bind_Ok in H as (blocks & s1 & Hl & H).
  apply zoom_Ok in Hl as (t & Hl & ->).
  rewrite load_adjacent_blocks_unfold in Hl.
  apply for_each_load_block_Ok in Hl as [-> Hl].
  unfold lift_res in H.
  destruct (find_file_content _ _ _ _) as [o0| |] eqn:Hfind; [|done|done].
  injection H as -> <-. split; [by destruct s as [fs [bc fi us]]|].
  apply find_file_content_sound in Hfind as (r & c & o & Hin & Hr).
  apply list_elem_of_In, in_concat in Hin as (d & Hd & Hin).
  apply list_elem_of_In in Hd, Hin.
  apply list_elem_of_fmap in Hd as (b & -> & Hb).
  apply list_elem_of_lookup in Hb as (k & Hk).
  destruct (Forall2_lookup_r _ _ _ _ _ Hl Hk) as (f & Hf & Hfb).
  exists block_index, f, b, r, c, o.
  split; [done|]. split; [by eapply list_elem_of_lookup_2|]. by split.
Qed.

Lemma demo_reloaded_read :
  get_file_content BlockChainBackup plain_env "f.txt" "alice" false demo_reloaded
  = Ok (Some ["h"%byte; "i"%byte], demo_reloaded).
Proof.
  destruct (outcome_Ok (get_file_content BlockChainBackup plain_env "f.txt" "alice"
                          false demo_reloaded) (Some ["h"%byte; "i"%byte]))
    as [s' Hs']; [vm_compute; exact eq_refl|].
  by rewrite (get_file_content_same_state _ _ _ _ _ _ _ _ Hs') in Hs'.
Qed.

Lemma get_file_content_sound_witness :
  ∃ block_index f b r c o,
    file_index demo_reloaded.2 !! "f.txt" = Some block_index
    ∧ f ∈ set_order plain_env
            (adjacent_files (chunk_index (fb_self demo_reloaded.2)) block_index)
    ∧ holds_block (demo_reloaded.1, fb_self demo_reloaded.2) f b
    ∧ r ∈ data b
    ∧ record_get "file_name" r = Some "f.txt"
    ∧ record_get "owner" r = Some o ∧ (o = "alice" ∨ false = true)
    ∧ record_get "file_content" r = Some c
    ∧ bytes_fromhex c = Some ["h"%byte; "i"%byte].
Proof.
  apply (get_file_content_sound BlockChainBackup plain_env "f.txt" "alice" false
           demo_reloaded demo_reloaded ["h"%byte; "i"%byte]).
  apply demo_reloaded_read.
Defined.

(* ===================================================================== *)
(** ** What the windowed check looks at *)
(* ===================================================================== *)

Lemma load_block_outcome f (s : store) :
  load_block f s
  = match s.1 !! path_join (storage_dir s.2) f with
    | Some (PBlock b) => Ok (b, s)
    | Some (PChain _) => Raise PickleKindError
    | None => Raise FileNotFoundError
    end.
Proof. reflexivity. Qed.

Lemma for_each_load_block_agree l (s t : store) :
  (∀ f, f ∈ l → same_block_file s t f) →
  outcome (for_each load_block l s) = outcome (for_each load_block l t).
Proof.
  induction l as [|f l IH]; intros Hsame; [done|].
  simpl. unfold bind at 1 3. rewrite !load_block_outcome.
  rewrite <- (Hsame f) by left.
  destruct (s.1 !! _) as [[b|c]|]; [|done|done].
  assert (outcome (for_each load_block l s) = outcome (for_each load_block l t))
    as Hrest by (apply IH; intros g Hg; apply Hsame; by right).
  unfold bind, ret.
  destruct (for_each load_block l s) as [[bs s1]| |],
           (for_each load_block l t) as [[bs' t1]| |]; simpl in *; congruence.
Qed.

(** X7.  The windowed check of [BlockChainBackup.py] looks at nothing but
    [chunk_index] and the block files it names for the three positions of
    the window: two chain objects that agree on these get the same answer,
    whatever their [chain] lists and the rest of storage hold. *)
Theorem windowed_check_local E target_block_index (s t : store) :
  chunk_index s.2 = chunk_index t.2 →
  (∀ f, f ∈ adjacent_files (chunk_index s.2) target_block_index →
        same_block_file s t f) →
  set_order_ok E →
  outcome (BackupPy.verify_chain_integrity E target_block_index s)
  = outcome (BackupPy.verify_chain_integrity E target_block_index t).
Proof.
  intros Hci Hsame HE. unfold BackupPy.verify_chain_integrity.
  assert (outcome (load_adjacent_blocks E target_block_index s)
          = outcome (load_adjacent_blocks E target_block_index t)) as Hl.
  { rewrite !load_adjacent_blocks_unfold, <- Hci.
    apply for_each_load_block_agree. intros f Hf. apply Hsame.
    by apply (set_order_elem E). }
  unfold bind.
  destruct (load_adjacent_blocks E target_block_index s) as [[bs s1]| |],
           (load_adjacent_blocks E target_block_index t) as [[bs' t1]| |];
    simpl in Hl; try congruence.
  injection Hl as <-. unfold ret.
  repeat match goal with
         | |- context [match ?x with _ => _ end] => destruct x
         end; reflexivity.
Qed.

Lemma windowed_check_local_witness :
  outcome (BackupPy.verify_chain_integrity plain_env 1
             (tampered_store.1, fb_self tampered_store.2))
  = outcome (BackupPy.verify_chain_integrity plain_env 1 tampered_elsewhere).
Proof.
  apply (windowed_check_local plain_env 1
           (tampered_store.1, fb_self tampered_store.2) tampered_elsewhere).
  - reflexivity.
  - intros f Hf. apply list_elem_of_In in Hf. vm_compute in Hf.
    destruct Hf as [<-|[<-|[]]]; vm_compute; reflexivity.
  - apply plain_env_ok.
Defined.

(* ===================================================================== *)
(** ** Users *)
(* ===================================================================== *)

Lemma register_user_true v fuel now username password (s s' : file_store) :
  register_user v fuel now username password s = Ok (true, s') →
  users s.2 !! username = None
  ∧ users s'.2 = <[username := sha256_hex password]> (users s.2).
Proof.
  unfold register_user. intros H.
  apply bind_Ok in H as (us & s0 & Hus & H).
  unfold gets in Hus. injection Hus as <- <-.
  destruct (users s.2 !! username) as [h|] eqn:Hu; [by unfold ret in H|].
  split; [done|]. destruct v.
  - unfold_M. by injection H as <-.
  - apply bind_Ok in H as ([] & s1 & Hadd & H).
    unfold ret in H. injection H as <-.
    by apply add_user_Ok in Hadd as (b & t & _ & ->).
Qed.

(** X8.  After [register_user] has returned [True], [authenticate_user]
    accepts the registered password for that name, and accepts another
    password only if it has the same SHA-256 digest. *)
Theorem register_then_authenticate v fuel now username password (s s' : file_store) :
  register_user v fuel now username password s = Ok (true, s') →
  outcome (authenticate_user username password s') = Ok true
  ∧ ∀ other, outcome (authenticate_user username other s') = Ok true →
             sha256_hex other = sha256_hex password.
Proof.
  intros H. apply register_user_true in H as [_ Hu].
  assert (∀ p, outcome (authenticate_user username p s')
               = Ok (String.eqb (sha256_hex password) (sha256_hex p))) as Hauth.
  { intros p. unfold authenticate_user. unfold_M.
    by rewrite Hu, lookup_insert_eq. }
  split.
  - by rewrite Hauth, String.eqb_refl.
  - intros other. rewrite Hauth. intros [= Heq]. symmetry. by apply String.eqb_eq.
Qed.

Lemma register_then_authenticate_witness :
  outcome (authenticate_user "bob" "password456"
             (files demo_world,
              set_users (<["bob" := sha256_hex "password456"]> ∅)
                        (file_blockchain demo_world)))
  = Ok true
  ∧ ∀ other,
      outcome (authenticate_user "bob" other
                 (files demo_world,
                  set_users (<["bob" := sha256_hex "password456"]> ∅)
                            (file_blockchain demo_world)))
      = Ok true →
      sha256_hex other = sha256_hex "password456".
Proof.
  apply (register_then_authenticate BlockChainBackup genesis_fuel "1700000002.0"
           "bob" "password456" (files demo_world, file_blockchain demo_world)).
  reflexivity.
Defined.

(** X9.  A name that can log in cannot be registered again:
    [register_user] returns [False] and changes nothing, so the registered
    password is not overwritten and, in [main.py], no block is sealed. *)
Theorem register_user_taken v fuel now username password old (s : file_store) :
  outcome (authenticate_user username old s) = Ok true →
  register_user v fuel now username password s = Ok (false, s).
Proof.
  intros Hold.
  assert (∃ h, users s.2 !! username = Some h) as [h Hh].
  { unfold authenticate_user in Hold. unfold_M.
    destruct (users s.2 !! username) as [h|]; [eauto|done]. }
  by apply (register_user_known _ _ _ _ _ _ h).
Qed.

Lemma register_user_taken_witness :
  register_user Main genesis_fuel "1700000003.0" "bob" "another"
    (files demo_world,
     set_users (<["bob" := sha256_hex "password456"]> ∅) (file_blockchain demo_world))
  = Ok (false,
        (files demo_world,
         set_users (<["bob" := sha256_hex "password456"]> ∅)
                   (file_blockchain demo_world))).
Proof.
  apply (register_user_taken Main genesis_fuel "1700000003.0" "bob" "another"
           "password456").
  reflexivity.
Defined.

(* ===================================================================== *)
(** ** What [add_file] leaves behind *)
(* ===================================================================== *)

(** X10.  In a running program a call of [add_file] that returns has sealed
    one block onto the file chain, holding the one record of the file, and
    [file_index] now maps the stored path to that block's index, every
    other path keeping the index it had. *)
Theorem add_file_indexes_new_block v E fuel clk file_path file_date file_content
    owner w w' :
  reachable v E w →
  add_file v E fuel clk file_path file_date file_content owner w = Ok (tt, w') →
  ∃ b, chain (fb_self (file_blockchain w')) = chain (fb_self (file_blockchain w)) ++ [b]
       ∧ index b = Z.of_nat (length (chain (fb_self (file_blockchain w))))
       ∧ data b = [FileRecord (relpath E file_path) file_date (bytes_hex file_content)
                              owner]
       ∧ file_index (file_blockchain w')
         = <[relpath E file_path := index b]> (file_index (file_blockchain w)).
Proof.
  intros Hr Hadd.
  apply reachable_settled in Hr as (_ & _ & _ & Hcf & _ & _ & Hfi).
  apply add_file_Ok in Hadd
    as (b1 & s1 & b2 & s2 & b3 & s3 & fl & H1 & _ & _ & _ & ->).
  apply seal_Ok_snoc in H1 as (Hc & Hd & _ & Hi).
  exists b1. simpl. rewrite Hcf in Hd. simpl in Hd.
  repeat (split; [done|]).
  by rewrite Hc, index_files_snoc, Hd, Hfi.
Qed.

Lemma add_file_indexes_new_block_witness :
  ∃ b, chain (fb_self (file_blockchain (demo_world_with_file "2023-11-14 22:13:20")))
       = chain (fb_self (file_blockchain demo_world)) ++ [b]
       ∧ index b = Z.of_nat (length (chain (fb_self (file_blockchain demo_world))))
       ∧ data b = [FileRecord "f.txt" "2023-11-14 22:13:20"
                              (bytes_hex ["h"%byte; "i"%byte]) "alice"]
       ∧ file_index (file_blockchain (demo_world_with_file "2023-11-14 22:13:20"))
         = <["f.txt" := index b]> (file_index (file_blockchain demo_world)).
Proof.
  apply (add_file_indexes_new_block BlockChainBackup plain_env genesis_fuel
           demo_clock "f.txt" "2023-11-14 22:13:20" ["h"%byte; "i"%byte] "alice"
           demo_world (demo_world_with_file "2023-11-14 22:13:20")).
  - apply demo_world_reachable.
  - apply demo_add_file.
Defined.

Lemma file_entries_app records records' :
  file_entries (records ++ records')
  = l ← file_entries records; l' ← file_entries records'; Some (l ++ l').
Proof.
  induction records as [|r rest IH]; simpl.
  - by destruct (file_entries records').
  - destruct (has_key "file_name" r); [|done].
    destruct (record_get "file_name" r); [|done].
    destruct (record_get "owner" r); [|done].
    destruct (record_get "file_date" r); [|done]. simpl.
    rewrite IH. destruct (file_entries rest); [|done]. simpl.
    by destruct (file_entries records').
Qed.

Lemma file_entries_content records :
  Forall is_content records → ∃ l, file_entries records = Some l.
Proof.
  induction 1 as [|r rest Hr _ [l IH]]; [by exists []|].
  destruct r; try done; simpl; rewrite IH; eauto.
Qed.

Lemma get_file_list_outcome (s : file_store) :
  outcome (get_file_list s)
  = match file_entries (records_of (chain (fb_self s.2))) with
    | Some l => Ok l
    | None => Raise KeyError
    end.
Proof. unfold get_file_list. unfold_M. by destruct (file_entries _). Qed.

Lemma get_latest_index_snoc fs bc c b :
  chain bc = c ++ [b] → outcome (get_latest_index (fs, bc)) = Ok (data b).
Proof.
  intros Hc. unfold get_latest_index. unfold_M. simpl. by rewrite Hc, last_snoc.
Qed.

(** X11.  In a running program [get_file_list] returns; a call of
    [add_file] that returns puts one entry, for the new file, at the end
    of that list, and the newest block of the index chain then holds the
    whole new list as its one record. *)
Theorem add_file_publishes_listing v E fuel clk file_path file_date file_content
    owner w w' :
  reachable v E w →
  add_file v E fuel clk file_path file_date file_content owner w = Ok (tt, w') →
  ∃ l, outcome (get_file_list (files w, file_blockchain w)) = Ok l
       ∧ outcome (get_file_list (files w', file_blockchain w'))
         = Ok (l ++ [FileEntry (relpath E file_path) owner file_date])
       ∧ outcome (get_latest_index (files w', index_blockchain w'))
         = Ok [IndexRecord (l ++ [FileEntry (relpath E file_path) owner file_date])
                           (t_listing clk)].
Proof.
  intros Hr Hadd.
  apply reachable_settled in Hr as (Hf & _ & _ & Hcf & _ & Hci & _).
  destruct (file_entries_content _ Hf) as [l Hl].
  apply add_file_Ok in Hadd
    as (b1 & s1 & b2 & s2 & b3 & s3 & fl & H1 & _ & Hfl & H3 & ->).
  apply seal_Ok_snoc in H1 as (Hc1 & Hd1 & _).
  apply seal_Ok_snoc in H3 as (Hc3 & Hd3 & _).
  rewrite Hc1, records_of_snoc, Hd1, Hcf, file_entries_app, Hl in Hfl.
  simpl in Hfl. injection Hfl as <-.
  exists l. rewrite !get_file_list_outcome. simpl.
  rewrite Hl, Hc1, records_of_snoc, Hd1, Hcf, file_entries_app, Hl. simpl.
  repeat split.
  rewrite (get_latest_index_snoc _ _ _ _ Hc3), Hd3, Hci. done.
Qed.

Lemma add_file_publishes_listing_witness :
  ∃ l, outcome (get_file_list (files demo_world, file_blockchain demo_world)) = Ok l
       ∧ outcome (get_file_list
                    (files (demo_world_with_file "2023-11-14 22:13:20"),
                     file_blockchain (demo_world_with_file "2023-11-14 22:13:20")))
         = Ok (l ++ [FileEntry "f.txt" "alice" "2023-11-14 22:13:20"])
       ∧ outcome (get_latest_index
                    (files (demo_world_with_file "2023-11-14 22:13:20"),
                     index_blockchain (demo_world_with_file "2023-11-14 22:13:20")))
         = Ok [IndexRecord (l ++ [FileEntry "f.txt" "alice" "2023-11-14 22:13:20"])
                           "2023-11-14 22:13:21"].
Proof.
  apply (add_file_publishes_listing BlockChainBackup plain_env genesis_fuel
           demo_clock "f.txt" "2023-11-14 22:13:20" ["h"%byte; "i"%byte] "alice"
           demo_world (demo_world_with_file "2023-11-14 22:13:20")).
  - apply demo_world_reachable.
  - apply demo_add_file.
Defined.

(* ===================================================================== *)
(** ** The index chain and the access snapshot *)
(* ===================================================================== *)

(** X12.  After [update_index] has returned, [get_latest_index] returns the
    records that were pending followed by the new listing record; with
    nothing pending, the listing record alone. *)
Theorem update_index_then_latest v fuel stamp now file_list (s s' : store) :
  update_index v fuel stamp now file_list s = Ok (tt, s') →
  outcome (get_latest_index s')
  = Ok (current_data s.2 ++ [IndexRecord file_list stamp]).
Proof.
  intros H. apply update_index_Ok in H as (b & H).
  apply seal_Ok_snoc in H as (Hc & Hd & _). destruct s' as [fs' bc'].
  by rewrite (get_latest_index_snoc _ _ _ _ Hc), Hd.
Qed.

Lemma update_index_then_latest_witness :
  outcome (get_latest_index
             (seal_with 88914 "1700000004.0"
                (IndexRecord [] "2023-11-14 22:13:24")
                (files demo_world, index_blockchain demo_world)))
  = Ok (current_data (files demo_world, index_blockchain demo_world).2
        ++ [IndexRecord [] "2023-11-14 22:13:24"]).
Proof.
  apply (update_index_then_latest BlockChainBackup genesis_fuel
           "2023-11-14 22:13:24" "1700000004.0" []
           (files demo_world, index_blockchain demo_world)).
  exact (update_index_backup genesis_fuel "2023-11-14 22:13:24" "1700000004.0" []
           (files demo_world, index_blockchain demo_world)
           (genesis_block _) 88914 eq_refl proof_of_work_genesis).
Defined.

(** X13.  [load_access_chain] on the file [save_access_chain] wrote gives
    the saved chain back, replacing whatever chain the object held, and
    writes nothing; the saved chain has to hold a block. *)
Theorem access_snapshot_roundtrip v now (s s1 : access_store) (ab : AccessBlockchain) :
  chain (ab_self s.2) ≠ [] →
  save_access_chain s = Ok (tt, s1) →
  storage_file ab = storage_file s.2 →
  ∃ s2, load_access_chain v now (s1.1, ab) = Ok (tt, s2)
        ∧ chain (ab_self s2.2) = chain (ab_self s.2)
        ∧ s2.1 = s1.1.
Proof.
  intros Hne Hsave Hsf. unfold save_access_chain, modify in Hsave.
  injection Hsave as <-.
  unfold load_access_chain. unfold_zoom. unfold_M. simpl.
  rewrite Hsf, lookup_insert_eq. simpl.
  destruct (chain (ab_self s.2)) as [|b c] eqn:Hc; [done|].
  eexists. split; [reflexivity|]. done.
Qed.

Lemma access_snapshot_roundtrip_witness :
  ∃ s2, load_access_chain BlockChainBackup "1700000005.0"
          (demo_access_saved.1, demo_access_unloaded)
        = Ok (tt, s2)
        ∧ chain (ab_self s2.2) = chain (ab_self demo_access_store.2)
        ∧ s2.1 = demo_access_saved.1.
Proof.
  refine (access_snapshot_roundtrip BlockChainBackup "1700000005.0"
            demo_access_store demo_access_saved demo_access_unloaded _ eq_refl eq_refl).
  vm_compute. discriminate.
Defined.

(* ===================================================================== *)
(** ** [verify_block_integrity] *)
(* ===================================================================== *)

Lemma py_index_nat {A : Type} (l : list A) (i : nat) :
  py_index l (Z.of_nat i) = l !! i.
Proof.
  unfold py_index. rewrite (bool_decide_eq_false_2 (Z.of_nat i < 0)) by lia.
  cbv zeta. rewrite bool_decide_eq_false_2 by lia. by rewrite Nat2Z.id.
Qed.

(** X14.  On a chain that is linked and whose blocks hold their positions as
    indices, [verify_block_integrity] returns [True] for every block of
    the chain. *)
Theorem verify_block_integrity_on_chain (s : store) b :
  positioned (chain s.2) → linked (chain s.2) → b ∈ chain s.2 →
  outcome (verify_block_integrity b s) = Ok true.
Proof.
  intros [_ Hpos] Hlk Hin. apply list_elem_of_lookup in Hin as [i Hi].
  pose proof (Hpos i b Hi) as Hidx. unfold verify_block_integrity.
  destruct i as [|i]; [by rewrite Hidx|].
  destruct (Z.eqb_spec (index b) 0) as [H0|_]; [lia|].
  apply lookup_lt_Some in Hi as Hlen.
  destruct (Hlk (S i)) as (b' & p & Hb' & Hp & Hh & Hi' & Hv); [lia|].
  assert (b' = b) as -> by congruence.
  replace (S i - 1)%nat with i in Hp by lia.
  unfold_M. replace (index b - 1) with (Z.of_nat i) by lia.
  rewrite py_index_nat, Hp. simpl. f_equal.
  apply check_validity_true. by repeat split.
Qed.

Lemma verify_block_integrity_on_chain_witness :
  outcome (verify_block_integrity
             (mkBlock 1 88914 (calculate_hash (genesis_block "1700000000.25"))
                [FileRecord "f.txt" "2023-11-14 22:13:20" "6869" "alice"]
                "1700000001.0")
             (files (demo_world_with_file "2023-11-14 22:13:20"),
              fb_self (file_blockchain (demo_world_with_file "2023-11-14 22:13:20"))))
  = Ok true.
Proof.
  pose proof (reachable_linked _ _ _ (demo_reachable "2023-11-14 22:13:20")) as Hall.
  apply Forall_cons_1 in Hall as [[Hp Hl] _].
  apply (verify_block_integrity_on_chain
           (files (demo_world_with_file "2023-11-14 22:13:20"),
            fb_self (file_blockchain (demo_world_with_file "2023-11-14 22:13:20")))).
  - exact Hp.
  - exact Hl.
  - right. left.
Defined.

(* ===================================================================== *)
(** ** Records without a file name *)
(* ===================================================================== *)

Lemma find_file_content_nameless file_name owner is_shared records r :
  r ∈ records → record_get "file_name" r = None →
  (∀ r', r' ∈ records → ¬ may_read file_name owner is_shared r') →
  find_file_content file_name owner is_shared records = Raise KeyError.
Proof.
  intros Hin Hr Hno. induction records as [|x rest IH]; [by inversion Hin|].
  simpl. destruct (record_get "file_name" x) as [n|] eqn:Hn; [|done].
  assert (find_file_content file_name owner is_shared rest = Raise KeyError) as Hrest.
  { apply IH.
    - apply elem_of_cons in Hin as [->|Hin]; [congruence|done].
    - intros r' Hr'. apply Hno. by right. }
  destruct (String.eqb_spec n file_name) as [->|_]; [|done].
  destruct (record_get "owner" x) as [o|] eqn:Ho; [|done].
  destruct (String.eqb_spec o owner) as [->|_]; simpl.
  - destruct (Hno x); [left|]. split; [done|by left].
  - destruct is_shared; [|done].
    destruct (Hno x); [left|]. split; [done|by right].
Qed.

(** X15.  [get_file_content] raises [KeyError], instead of returning
    [None], when the check has passed and the window holds a record
    without a file name, such as the registration records that [main.py]
    seals into the file chain, and no record the caller may read. *)
Theorem get_file_content_nameless_record v E file_name owner is_shared
    (s : file_store) block_index blocks r :
  file_index s.2 !! file_name = Some block_index →
  outcome (read_path_check v E block_index s) = Ok true →
  outcome (inherited (load_adjacent_blocks E block_index) s) = Ok blocks →
  r ∈ records_of blocks → record_get "file_name" r = None →
  (∀ r', r' ∈ records_of blocks → ¬ may_read file_name owner is_shared r') →
  outcome (get_file_content v E file_name owner is_shared s) = Raise KeyError.
Proof.
  intros Hidx Hok Hl Hin Hr Hno.
  apply outcome_Ok in Hok as [s1 Hok].
  pose proof (read_path_check_same_state _ _ _ _ _ _ Hok) as ->.
  apply outcome_Ok in Hl as [s1 Hl].
  unfold get_file_content. unfold bind at 1. unfold gets. rewrite Hidx.
  rewrite (outcome_bind _ _ _ _ _ Hok). simpl.
  rewrite (outcome_bind _ _ _ _ _ Hl). unfold lift_res.
  by rewrite (find_file_content_nameless _ _ _ _ r).
Qed.

Lemma get_file_content_nameless_record_witness :
  outcome (get_file_content Main plain_env "f.txt" "bob" false main_restarted)
  = Raise KeyError.
Proof.
  apply (get_file_content_nameless_record Main plain_env "f.txt" "bob" false
           main_restarted 2
           [file_block_after (registration_block (genesis_block "1700000000.25"));
            registration_block (genesis_block "1700000000.25")]
           (UserRecord "bob" (sha256_hex "password456"))).
  - vm_compute. exact eq_refl.
  - vm_compute. exact eq_refl.
  - vm_compute. exact eq_refl.
  - right. left.
  - reflexivity.
  - intros r' Hin. apply list_elem_of_In in Hin. simpl in Hin.
    destruct Hin as [<-|[<-|[]]]; intros [Hn [Ho|Hs]]; discriminate.
Defined.

(* ===================================================================== *)
(** ** Registrations sealed into the chain *)
(* ===================================================================== *)

Lemma seal_main fuel now fs bc d l p :
  last (chain bc) = Some l →
  proof_of_work fuel (proof_no l) = Some p →
  index l + 1 = Z.of_nat (length (chain bc)) →
  MainPy.verify_chain_integrity
    (chain bc ++ [mkBlock (Z.of_nat (length (chain bc))) p (calculate_hash l) d now])
  = true →
  seal Main fuel now (fs, set_current_data d bc)
  = Ok (mkBlock (Z.of_nat (length (chain bc))) p (calculate_hash l) d now,
        append_block
          (mkBlock (Z.of_nat (length (chain bc))) p (calculate_hash l) d now)
          (fs, bc)).
Proof.
  intros Hl Hp Hi Hv. rewrite (seal_unfold _ _ _ _ l p) by done.
  rewrite construct_block_main; [done| |done].
  simpl. by rewrite Hl.
Qed.

Lemma add_user_main fuel now username password w l p :
  last (chain (fb_self (file_blockchain w))) = Some l →
  proof_of_work fuel (proof_no l) = Some p →
  index l + 1 = Z.of_nat (length (chain (fb_self (file_blockchain w)))) →
  MainPy.verify_chain_integrity
    (chain (fb_self (file_blockchain w))
     ++ [mkBlock (Z.of_nat (length (chain (fb_self (file_blockchain w))))) p
           (calculate_hash l)
           (current_data (fb_self (file_blockchain w))
            ++ [UserRecord username (sha256_hex password)])
           now])
  = true →
  on_file (add_user fuel now username password) w
  = Ok (tt, add_user_effect p now username password w).
Proof.
  intros Hl Hp Hi Hv. destruct w as [fs [bc fi us] ab ib]. simpl in *.
  unfold add_user, add_user_effect, seal_with. unfold_zoom. unfold_M. simpl.
  rewrite (seal_main _ _ fs bc _ l p) by done. by rewrite Hl.
Qed.

Lemma demo_user_block_valid :
  MainPy.verify_chain_integrity
    (chain (fb_self (file_blockchain demo_world))
     ++ [mkBlock (Z.of_nat (length (chain (fb_self (file_blockchain demo_world)))))
           88914 (calculate_hash (genesis_block "1700000000.25"))
           (current_data (fb_self (file_blockchain demo_world))
            ++ [UserRecord "bob" (sha256_hex "password456")])
           "1700000002.0"])
  = true.
Proof. vm_compute. exact eq_refl. Qed.

Lemma demo_add_user :
  on_file (add_user genesis_fuel "1700000002.0" "bob" "password456") demo_world
  = Ok (tt, demo_world_with_user).
Proof.
  exact (add_user_main genesis_fuel "1700000002.0" "bob" "password456" demo_world
           (genesis_block "1700000000.25") 88914 eq_refl proof_of_work_genesis
           eq_refl demo_user_block_valid).
Qed.

Lemma demo_world_with_user_reachable : reachable Main plain_env demo_world_with_user.
Proof.
  eapply (reach_add_user Main plain_env genesis_fuel "1700000002.0" "bob" "password456"
            demo_world); [done| |apply demo_add_user].
  apply (reach_new _ _ "default" "1700000000.25" "1700000000.5" "1700000000.5"
                   "1700000000.75").
  apply new_world_fresh.
Qed.

(** X16.  In a running program the dictionary [users] is what
    [load_users_from_chain] builds from the file chain on an empty
    dictionary: every registration made by [add_user] can be rebuilt from
    the blocks. *)
Theorem users_follow_chain v E w :
  reachable v E w →
  users (file_blockchain w)
  = index_users ∅ (chain (fb_self (file_blockchain w))).
Proof.
  induction 1 as [name t1 t2 t3 t4 w Hnew
                 |fuel clk fp fd fc o w w' Hr IH Hop
                 |fuel stamp now f o u w w' _ IH Hop
                 |fuel stamp now fl w w' _ IH Hop
                 |fuel now u p w w' _ Hr IH Hop].
  - rewrite new_world_fresh in Hnew. by injection Hnew as <-.
  - apply reachable_settled in Hr as (_ & _ & _ & Hcf & _).
    apply add_file_Ok in Hop
      as (b1 & s1 & b2 & s2 & b3 & s3 & fl & H1 & _ & _ & _ & ->).
    apply seal_Ok_snoc in H1 as (Hc & Hd & _). simpl.
    by rewrite Hc, index_users_snoc, Hd, Hcf, <- IH.
  - unfold on_access in Hop. by apply zoom_Ok in Hop as (s' & _ & ->).
  - unfold on_index in Hop. by apply zoom_Ok in Hop as (s' & _ & ->).
  - apply reachable_settled in Hr as (_ & _ & _ & Hcf & _).
    unfold on_file in Hop. apply zoom_Ok in Hop as (s' & Hop & ->).
    apply add_user_Ok in Hop as (b & t & Hs & ->).
    apply seal_Ok_snoc in Hs as (Hc & Hd & _). simpl in *.
    by rewrite Hc, index_users_snoc, Hd, Hcf, <- IH.
Qed.

Lemma users_follow_chain_witness :
  users (file_blockchain demo_world_with_user)
  = index_users ∅ (chain (fb_self (file_blockchain demo_world_with_user))).
Proof.
  apply (users_follow_chain Main plain_env demo_world_with_user).
  apply demo_world_with_user_reachable.
Defined.

(* ===================================================================== *)
(** ** What [load_chain] leaves *)
(* ===================================================================== *)

Lemma on_self_Ok {A : Type} (f : Blockchain → A) (s s' : store) a :
  on_self f s = Ok (a, s') → a = f s.2 ∧ s' = s.
Proof. unfold on_self, gets. by intros [= <- <-]. Qed.

Lemma update_self_Ok (f : Blockchain → Blockchain) (s s' : store) u :
  update_self f s = Ok (u, s') → s' = (s.1, f s.2).
Proof. unfold update_self, modify. by intros [= <-]. Qed.

Lemma load_chain_step_Ok v block_file (s s' : store) :
  load_chain_step v block_file s = Ok (tt, s') →
  ∃ b, holds_block s block_file b
       ∧ s' = (s.1, set_chunk_index (<[index b := block_file]> (chunk_index s.2))
                      (set_chain (chain s.2 ++ [b]) s.2)).
Proof.
  unfold load_chain_step. intros H.
  apply bind_Ok in H as (sd & s0 & Hsd & H). apply on_self_Ok in Hsd as [-> ->].
  apply bind_Ok in H as (b & s0 & Hb & H).
  assert (holds_block s block_file b ∧ s0 = s) as [Hhold ->].
  { unfold read_block in Hb. unfold holds_block.
    destruct (s.1 !! _) as [[b'|c]|]; [|done|done]. by injection Hb as <- <-. }
  apply bind_Ok in H as (c & s0 & Hc & H). apply on_self_Ok in Hc as [-> ->].
  apply bind_Ok in H as (u & s0 & Hu & H).
  assert (s0 = s) as ->.
  { destruct v; [by injection Hu as _ <-|].
    destruct (last (chain s.2)); [|by injection Hu as _ <-].
    destruct (negb _); [done|by injection Hu as _ <-]. }
  apply bind_Ok in H as (u1 & s1 & H1 & H). apply update_self_Ok in H1 as ->.
  apply update_self_Ok in H as ->. by exists b.
Qed.

Lemma holds_block_frame (s s' : store) f b :
  s'.1 = s.1 → storage_dir s'.2 = storage_dir s.2 →
  holds_block s f b → holds_block s' f b.
Proof. unfold holds_block. by intros -> ->. Qed.

Lemma load_chain_steps v names (s s' : store) r :
  for_each (load_chain_step v) names s = Ok (r, s') →
  loadable s →
  ∃ blocks, Forall2 (holds_block s) names blocks
            ∧ chain s'.2 = chain s.2 ++ blocks
            ∧ loadable s'
            ∧ s'.1 = s.1 ∧ storage_dir s'.2 = storage_dir s.2.
Proof.
  revert s r. induction names as [|f names IH]; intros s r H Hl; simpl in H.
  - unfold ret in H. injection H as _ <-. exists []. by rewrite app_nil_r.
  - apply bind_Ok in H as ([] & s1 & Hstep & H).
    apply bind_Ok in H as (r' & s2 & Hrest & H).
    unfold ret in H. injection H as _ <-.
    apply load_chain_step_Ok in Hstep as (b & Hb & ->).
    apply IH in Hrest as (blocks & Hbs & Hc & Hl' & Hfs & Hsd).
    + exists (b :: blocks). simpl in *. rewrite Hc, <- app_assoc.
      repeat split; try done. constructor; [done|].
      eapply Forall2_impl; [exact Hbs|]. intros g x. by apply holds_block_frame.
    + intros i g. simpl. intros Hi.
      apply lookup_insert_Some in Hi as [[<- <-]|[_ Hi]].
      * exists b. split; [|done]. by eapply holds_block_frame; [..|exact Hb].
      * destruct (Hl i g Hi) as (x & Hx & Hix). exists x. split; [|done].
        by eapply holds_block_frame; [..|exact Hx].
Qed.

Lemma load_chain_Ok v now (s s' : store) names :
  block_files v (storage_dir s.2) (blockchain_name s.2) s.1 = Some names →
  names ≠ [] →
  load_chain v now s = Ok (tt, s') →
  Forall2 (holds_block s) names (chain s'.2)
  ∧ loadable s'
  ∧ s'.1 = s.1 ∧ storage_dir s'.2 = storage_dir s.2.
Proof.
  intros Hnames Hne H. unfold load_chain in H.
  apply bind_Ok in H as (sd & s0 & Hsd & H). apply on_self_Ok in Hsd as [-> ->].
  apply bind_Ok in H as (name & s0 & Hn & H). apply on_self_Ok in Hn as [-> ->].
  apply bind_Ok in H as (fs & s0 & Hfs & H).
  unfold gets in Hfs. injection Hfs as <- <-.
  rewrite Hnames in H.
  apply bind_Ok in H as (files & s0 & Hf & H).
  unfold from_option, ret in Hf. injection Hf as <- <-.
  apply bind_Ok in H as (u1 & s1 & H1 & H). apply update_self_Ok in H1 as ->.
  apply bind_Ok in H as (u2 & s2 & H2 & H). apply update_self_Ok in H2 as ->.
  apply bind_Ok in H as (r & s3 & Hloop & H).
  apply load_chain_steps in Hloop as (blocks & Hbs & Hc & Hl & Hfs & Hsd);
    [|by intros i f].
  simpl in *.
  apply bind_Ok in H as (c & s4 & Hc' & H). apply on_self_Ok in Hc' as [-> ->].
  apply bind_Ok in H as (u3 & s4 & Hg & H).
  assert (s4 = s3) as ->.
  { rewrite Hc in Hg. destruct blocks as [|b blocks].
    - apply Forall2_nil_inv_r in Hbs. done.
    - simpl in Hg. unfold ret in Hg. by injection Hg as _ <-. }
  assert (s' = s3) as ->.
  { destruct v; [unfold ret in H; by injection H as <-|].
    apply bind_Ok in H as (c' & s5 & Hc5 & H). apply on_self_Ok in Hc5 as [-> ->].
    destruct (negb _); [done|]. unfold ret in H. by injection H as <-. }
  rewrite Hc. simpl. split; [|done].
  eapply Forall2_impl; [exact Hbs|]. intros f b. by apply holds_block_frame.
Qed.



(* ===================================================================== *)
(** ** What [file_index] points to *)
(* ===================================================================== *)

Lemma index_file_steps_lookup i fi records n j :
  foldl (index_file_step i) fi records !! n = Some j →
  fi !! n = Some j
  ∨ (j = i ∧ ∃ r, r ∈ records ∧ has_key "file_name" r = true
                  ∧ record_get "file_name" r = Some n).
Proof.
  revert fi. induction records as [|r rest IH]; intros fi; simpl; [by left|].
  intros H. apply IH in H as [H|(-> & r' & Hin & Hr')].
  - unfold index_file_step in H.
    destruct (has_key "file_name" r) eqn:Hk; [|by left].
    destruct (record_get "file_name" r) as [m|] eqn:Hm; [|by left].
    apply lookup_insert_Some in H as [[-> <-]|[_ H]]; [|by left].
    right. split; [done|]. exists r. split; [left|done].
  - right. split; [done|]. exists r'. split; [by right|done].
Qed.

Lemma index_file_steps_keeps i fi records n :
  is_Some (fi !! n) → is_Some (foldl (index_file_step i) fi records !! n).
Proof.
  revert fi. induction records as [|r rest IH]; intros fi Hn; simpl; [done|].
  apply IH. unfold index_file_step.
  destruct (has_key "file_name" r); [|done].
  destruct (record_get "file_name" r) as [m|]; [|done].
  destruct (decide (m = n)) as [->|Hmn].
  - rewrite lookup_insert_eq. eauto.
  - by rewrite lookup_insert_ne.
Qed.

Lemma index_file_steps_finds i fi records n r :
  r ∈ records → has_key "file_name" r = true → record_get "file_name" r = Some n →
  is_Some (foldl (index_file_step i) fi records !! n).
Proof.
  revert fi. induction records as [|x rest IH]; intros fi Hin Hk Hn; [by inversion Hin|].
  simpl. apply elem_of_cons in Hin as [<-|Hin]; [|by apply IH].
  apply index_file_steps_keeps. unfold index_file_step.
  rewrite Hk, Hn, lookup_insert_eq. eauto.
Qed.

Lemma index_files_lookup c n i :
  index_files c !! n = Some i →
  ∃ b r, b ∈ c ∧ index b = i ∧ r ∈ data b ∧ has_key "file_name" r = true
         ∧ record_get "file_name" r = Some n.
Proof.
  induction c as [|b c IH] using rev_ind; [done|].
  rewrite index_files_snoc. intros H.
  apply index_file_steps_lookup in H as [H|(-> & r & Hin & Hr)].
  - apply IH in H as (b' & r & Hb' & H). exists b', r.
    split; [apply elem_of_app; by left|done].
  - exists b, r. split; [apply elem_of_app; right; left|done].
Qed.

Lemma index_files_finds c n b r :
  b ∈ c → r ∈ data b → has_key "file_name" r = true →
  record_get "file_name" r = Some n →
  is_Some (index_files c !! n).
Proof.
  induction c as [|x c IH] using rev_ind; intros Hb Hr Hk Hn; [by inversion Hb|].
  rewrite index_files_snoc. apply elem_of_app in Hb as [Hb|Hb].
  - apply index_file_steps_keeps. by apply IH.
  - apply list_elem_of_singleton in Hb as ->. by eapply index_file_steps_finds.
Qed.

(** X18.  In a running program an entry of [file_index] gives the position
    of a block of the file chain that holds a file record of that path,
    and every path with a file record in the chain has an entry:
    [is_file_in_chain] returns [True] for it. *)
Theorem file_index_points_to_record v E w n :
  reachable v E w →
  (∀ i, file_index (file_blockchain w) !! n = Some i →
        ∃ b d c o, chain (fb_self (file_blockchain w)) !! Z.to_nat i = Some b
                   ∧ index b = i ∧ FileRecord n d c o ∈ data b)
  ∧ (∀ d c o,
       FileRecord n d c o ∈ records_of (chain (fb_self (file_blockchain w))) →
       outcome (is_file_in_chain n (files w, file_blockchain w)) = Ok true).
Proof.
  intros Hr.
  pose proof (reachable_linked _ _ _ Hr) as Hall.
  apply Forall_cons_1 in Hall as [[[_ Hpos] _] _].
  apply reachable_settled in Hr as (Hcontent & _ & _ & _ & _ & _ & Hfi).
  split.
  - intros i Hi. rewrite Hfi in Hi.
    apply index_files_lookup in Hi as (b & r & Hb & Hidx & Hin & Hk & Hn).
    apply list_elem_of_lookup in Hb as [k Hk'].
    pose proof (Hpos k b Hk') as Hbk.
    assert (is_content r) as Hc.
    { eapply Forall_forall; [exact Hcontent|].
      apply list_elem_of_In, in_concat. exists (data b).
      split; [apply in_map; eapply list_elem_of_In, list_elem_of_lookup_2; exact Hk'
             |by apply list_elem_of_In]. }
    destruct r as [n' d c o| | |]; try done.
    simpl in Hn. injection Hn as ->.
    exists b, d, c, o. split; [|done].
    by rewrite <- Hidx, Hbk, Nat2Z.id.
  - intros d c o Hin. unfold is_file_in_chain. unfold_M. simpl. f_equal.
    apply bool_decide_eq_true_2. rewrite Hfi.
    apply list_elem_of_In, in_concat in Hin as (l & Hl & Hin).
    apply in_map_iff in Hl as (b & <- & Hb).
    apply (index_files_finds _ _ b (FileRecord n d c o));
      [by apply list_elem_of_In|by apply list_elem_of_In|done|done].
Qed.

Lemma file_index_points_to_record_witness :
  (∀ i, file_index (file_blockchain (demo_world_with_file "2023-11-14 22:13:20"))
          !! "f.txt" = Some i →
        ∃ b d c o,
          chain (fb_self (file_blockchain (demo_world_with_file "2023-11-14 22:13:20")))
            !! Z.to_nat i = Some b
          ∧ index b = i ∧ FileRecord "f.txt" d c o ∈ data b)
  ∧ (∀ d c o,
       FileRecord "f.txt" d c o
         ∈ records_of
             (chain (fb_self (file_blockchain
                                (demo_world_with_file "2023-11-14 22:13:20")))) →
       outcome (is_file_in_chain "f.txt"
                  (files (demo_world_with_file "2023-11-14 22:13:20"),
                   file_blockchain (demo_world_with_file "2023-11-14 22:13:20")))
       = Ok true).
Proof.
  apply (file_index_points_to_record BlockChainBackup plain_env
           (demo_world_with_file "2023-11-14 22:13:20") "f.txt").
  apply demo_reachable.
Defined.

(* ===================================================================== *)
(** ** What the windowed check establishes *)
(* ===================================================================== *)

Lemma set_add_elem x y l : x ∈ set_add y l ↔ x ∈ l ∨ x = y.
Proof.
  unfold set_add. case_bool_decide as Hy.
  - split; [by left|]. by intros [?| ->].
  - rewrite elem_of_app, list_elem_of_singleton. done.
Qed.

Lemma adjacent_files_elem ci i f :
  f ∈ adjacent_files ci i ↔
  ∃ k, (k = i ∨ (k = i - 1 ∧ i > 0) ∨ k = i + 1) ∧ ci !! k = Some f.
Proof.
  unfold adjacent_files.
  assert (∀ l k, f ∈ match ci !! k with Some x => set_add x l | None => l end
                 ↔ f ∈ l ∨ ci !! k = Some f) as Hstep.
  { intros l k. destruct (ci !! k) as [x|].
    - rewrite set_add_elem.
      split; (intros [H|H]; [by left|right; by simplify_eq]).
    - split; [by left|]. by intros [H|H]. }
  split.
  - intros Hf.
    apply Hstep in Hf as [Hf|Hf]; [|exists (i + 1); auto].
    case_bool_decide as Hpos.
    + apply Hstep in Hf as [Hf|Hf]; [|exists (i - 1); auto].
      apply Hstep in Hf as [Hf|Hf]; [by inversion Hf|exists i; auto].
    + apply Hstep in Hf as [Hf|Hf]; [by inversion Hf|exists i; auto].
  - intros (k & Hk & Hf). apply Hstep.
    destruct Hk as [->|[[-> Hpos]| ->]]; [left|left|by right].
    + case_bool_decide; apply Hstep; [left|by right].
      apply Hstep. by right.
    + rewrite bool_decide_eq_true_2 by done. apply Hstep. by right.
Qed.

Lemma for_each_load_block_total l (s : store) :
  (∀ f, f ∈ l → ∃ b, holds_block s f b) →
  ∃ bs, for_each load_block l s = Ok (bs, s) ∧ Forall2 (holds_block s) l bs.
Proof.
  induction l as [|f l IH]; intros Hall.
  - exists []. by split.
  - destruct (Hall f) as [b Hb]; [left|].
    destruct IH as (bs & Hbs & Hall2); [intros g Hg; apply Hall; by right|].
    exists (b :: bs). split; [|by constructor].
    simpl. unfold bind at 1. rewrite load_block_outcome.
    unfold holds_block in Hb. rewrite Hb.
    by rewrite (bind_eval _ _ _ _ _ Hbs).
Qed.

Lemma by_index_snoc l y : by_index (l ++ [y]) = <[index y := y]> (by_index l).
Proof. unfold by_index. by rewrite foldl_app. Qed.

Lemma by_index_lookup l k x :
  (∀ y z, y ∈ l → z ∈ l → index y = index z → y = z) →
  by_index l !! k = Some x ↔ x ∈ l ∧ index x = k.
Proof.
  induction l as [|y l IH] using rev_ind; intros Hinj.
  - split; [done|]. intros [H _]. by inversion H.
  - rewrite by_index_snoc.
    assert (∀ a b, a ∈ l → b ∈ l → index a = index b → a = b) as Hinj'.
    { intros a b Ha Hb. apply Hinj; apply elem_of_app; by left. }
    assert (y ∈ l ++ [y]) as Hy by (apply elem_of_app; right; left).
    destruct (decide (index y = k)) as [<-|Hk].
    + rewrite lookup_insert_eq. split.
      * by intros [= <-].
      * intros [Hx Hix]. f_equal. by apply Hinj.
    + rewrite lookup_insert_ne by done. rewrite (IH Hinj'). split.
      * intros [Hx Hix]. split; [apply elem_of_app; by left|done].
      * intros [Hx Hix]. split; [|done].
        apply elem_of_app in Hx as [Hx|Hx]; [done|].
        apply list_elem_of_singleton in Hx. by subst.
Qed.

Lemma window_blocks E i (s : store) :
  set_order_ok E → loadable s →
  ∃ loaded, load_adjacent_blocks E i s = Ok (loaded, s)
            ∧ (∀ x, x ∈ loaded ↔ ∃ k, window_block s i k x ∧ index x = k)
            ∧ ∀ k x, by_index loaded !! k = Some x ↔ window_block s i k x.
Proof.
  intros HE Hload.
  assert (∀ f, f ∈ set_order E (adjacent_files (chunk_index s.2) i) ↔
               ∃ k, (k = i ∨ (k = i - 1 ∧ i > 0) ∨ k = i + 1)
                    ∧ chunk_index s.2 !! k = Some f) as Hadj.
  { intros f. by rewrite (set_order_elem E _ f HE), adjacent_files_elem. }
  destruct (for_each_load_block_total
              (set_order E (adjacent_files (chunk_index s.2) i)) s)
    as (loaded & Hrun & Hheld).
  { intros f Hf. apply Hadj in Hf as (k & _ & Hk).
    destruct (Hload k f Hk) as (b & Hb & _). eauto. }
  exists loaded. split; [by rewrite load_adjacent_blocks_unfold|].
  assert (∀ x, x ∈ loaded ↔ ∃ k, window_block s i k x ∧ index x = k) as Hmem.
  { intros x. split.
    - intros Hx. apply list_elem_of_lookup in Hx as [j Hj].
      destruct (Forall2_lookup_r _ _ _ _ _ Hheld Hj) as (f & Hf & Hfx).
      apply list_elem_of_lookup_2, Hadj in Hf as (k & Hk & Hci).
      exists k. split; [split; [done|eauto]|].
      destruct (Hload k f Hci) as (b & Hb & Hib).
      unfold holds_block in *. congruence.
    - intros (k & [Hk (f & Hci & Hfx)] & _).
      assert (f ∈ set_order E (adjacent_files (chunk_index s.2) i)) as Hf
        by (apply Hadj; eauto).
      apply list_elem_of_lookup in Hf as [j Hj].
      destruct (Forall2_lookup_l _ _ _ _ _ Hheld Hj) as (b & Hb & Hfb).
      unfold holds_block in *.
      assert (b = x) as <- by congruence. by eapply list_elem_of_lookup_2. }
  split; [done|].
  intros k x. rewrite by_index_lookup.
  - rewrite Hmem. split.
    + intros [(k' & Hw & Hk') Hk]. by subst.
    + intros Hw. destruct Hw as [Hk (f & Hci & Hfx)].
      assert (index x = k) as Hix.
      { destruct (Hload k f Hci) as (b & Hb & Hib).
        unfold holds_block in *. congruence. }
      split; [|done]. exists k. by repeat split; eauto.
  - intros y z Hy Hz Hyz.
    apply Hmem in Hy as (ky & [_ (fy & Hcy & Hfy)] & Hiy).
    apply Hmem in Hz as (kz & [_ (fz & Hcz & Hfz)] & Hiz).
    assert (ky = kz) as -> by congruence.
    unfold holds_block in *. congruence.
Qed.

(** X19.  On a chain object whose [chunk_index] entries can all be loaded,
    as [load_chain] leaves it, the windowed check of
    [BlockChainBackup.py] does not raise, and it returns [True] exactly
    when a block is stored for the target position and passes
    [check_validity] against the block stored for the position before it,
    and the block stored for the position after it passes against the
    target; a neighbour without entry is not checked, nor is the position
    before position 0. *)
Theorem windowed_check_meaning E target_block_index (s : store) :
  set_order_ok E → loadable s →
  (∃ r, outcome (BackupPy.verify_chain_integrity E target_block_index s) = Ok r)
  ∧ (outcome (BackupPy.verify_chain_integrity E target_block_index s) = Ok true ↔
     ∃ target_block,
       window_block s target_block_index target_block_index target_block
       ∧ (∀ prev_block,
            window_block s target_block_index (target_block_index - 1) prev_block →
            check_validity target_block prev_block = true)
       ∧ (∀ next_block,
            window_block s target_block_index (target_block_index + 1) next_block →
            check_validity next_block target_block = true)).
Proof.
  intros HE Hload.
  destruct (window_blocks E target_block_index s HE Hload)
    as (loaded & Hrun & _ & Hw).
  unfold BackupPy.verify_chain_integrity.
  rewrite (outcome_bind _ _ _ _ _ Hrun). fold (by_index loaded).
  destruct (by_index loaded !! target_block_index) as [t|] eqn:Ht; cycle 1.
  { split; [by exists false|]. split; [done|].
    intros (t & Ht' & _). apply Hw in Ht'. congruence. }
  assert (∀ x, window_block s target_block_index target_block_index x → x = t) as Htu.
  { intros x Hx. apply Hw in Hx. congruence. }
  destruct (by_index loaded !! (target_block_index - 1)) as [p|] eqn:Hp;
    destruct (by_index loaded !! (target_block_index + 1)) as [n|] eqn:Hn;
    try destruct (check_validity t p) eqn:Hvp;
    try destruct (check_validity n t) eqn:Hvn;
    simpl; (split; [by eauto|]);
    (split;
     [try done; intros _; exists t; (split; [by apply Hw|]);
      split; intros x Hx; apply Hw in Hx; congruence
     |try done; intros (t' & Ht' & Hprev & Hnext);
      apply Htu in Ht' as ->;
      try (rewrite (Hprev p) in Hvp by (by apply Hw); done);
      try (rewrite (Hnext n) in Hvn by (by apply Hw); done)]).
Qed.

Lemma demo_restart_loadable : loadable demo_reloaded_store.
Proof.
  apply (load_chain_Ok BlockChainBackup "1700000006.0" demo_restart
           demo_reloaded_store
           [block_file_name "default" 0; block_file_name "default" 1]).
  - vm_compute. exact eq_refl.
  - discriminate.
  - unfold demo_reloaded_store. apply returned_final_state.
    vm_compute. exact eq_refl.
Qed.

Lemma windowed_check_meaning_witness :
  (∃ r, outcome (BackupPy.verify_chain_integrity plain_env 1 demo_reloaded_store)
        = Ok r)
  ∧ (outcome (BackupPy.verify_chain_integrity plain_env 1 demo_reloaded_store)
     = Ok true ↔
     ∃ target_block,
       window_block demo_reloaded_store 1 1 target_block
       ∧ (∀ prev_block,
            window_block demo_reloaded_store 1 (1 - 1) prev_block →
            check_validity target_block prev_block = true)
       ∧ (∀ next_block,
            window_block demo_reloaded_store 1 (1 + 1) next_block →
            check_validity next_block target_block = true)).
Proof.
  apply (windowed_check_meaning plain_env 1 demo_reloaded_store).
  - apply plain_env_ok.
  - apply demo_restart_loadable.
Defined.

(* ===================================================================== *)
(** ** Who gets the content *)
(* ===================================================================== *)

Lemma inherited_eval {A : Type} (m : M store A) (s : file_store) a t :
  m (s.1, fb_self s.2) = Ok (a, t) →
  inherited m s = Ok (a, (t.1, mkFileBlockchain t.2 (file_index s.2) (users s.2))).
Proof. intros H. unfold inherited. by rewrite (zoom_eval _ _ _ _ _ _ H). Qed.

Lemma find_file_content_rule file_name owner is_shared records d bs o :
  (∀ r, r ∈ records →
        r = FileRecord file_name d (bytes_hex bs) o ∨ other_path file_name r) →
  FileRecord file_name d (bytes_hex bs) o ∈ records →
  find_file_content file_name owner is_shared records
  = Ok (if String.eqb o owner || is_shared then Some bs else None).
Proof.
  assert (∀ l, (∀ r, r ∈ l →
                     r = FileRecord file_name d (bytes_hex bs) o
                     ∨ other_path file_name r) →
               String.eqb o owner || is_shared = false →
               find_file_content file_name owner is_shared l = Ok None) as Hnone.
  { induction l as [|x l IH]; intros Hall Hno; [done|].
    destruct (Hall x) as [->|(n & Hn & Hne)]; [left| |]; simpl.
    - rewrite String.eqb_refl, Hno. apply IH; [|done].
      intros r Hr. apply Hall. by right.
    - rewrite Hn. rewrite (proj2 (String.eqb_neq n file_name)) by done.
      apply IH; [|done]. intros r Hr. apply Hall. by right. }
  induction records as [|x l IH]; intros Hall Hin; [by inversion Hin|].
  destruct (Hall x) as [->|(n & Hn & Hne)]; [left| |]; simpl.
  - rewrite String.eqb_refl.
    destruct (String.eqb o owner || is_shared) eqn:Hrd.
    + by rewrite bytes_fromhex_bytes_hex.
    + apply Hnone; [|done]. intros r Hr. apply Hall. by right.
  - rewrite Hn. rewrite (proj2 (String.eqb_neq n file_name)) by done.
    apply IH; [intros r Hr; apply Hall; by right|].
    apply elem_of_cons in Hin as [<-|Hin]; [|done].
    simpl in Hn. by injection Hn as <-.
Qed.

(** X20.  On a file chain whose [chunk_index] entries can all be loaded,
    take a path whose indexed block holds the one record of the path, the
    other blocks of the window holding records of other paths.  Once the
    check has passed, [get_file_content] returns the bytes that were
    stored when the caller is the record's owner or the read is a shared
    one, and [None] otherwise. *)
Theorem get_file_content_access_rule v E file_name owner is_shared (s : file_store)
    block_index b d bs o :
  set_order_ok E → loadable (s.1, fb_self s.2) →
  file_index s.2 !! file_name = Some block_index →
  outcome (read_path_check v E block_index s) = Ok true →
  window_block (s.1, fb_self s.2) block_index block_index b →
  data b = [FileRecord file_name d (bytes_hex bs) o] →
  (∀ k x r, k ≠ block_index → window_block (s.1, fb_self s.2) block_index k x →
            r ∈ data x → other_path file_name r) →
  outcome (get_file_content v E file_name owner is_shared s)
  = Ok (if String.eqb o owner || is_shared then Some bs else None).
Proof.
  intros HE Hload Hidx Hok Hb Hd Hothers.
  apply outcome_Ok in Hok as [s1 Hok].
  pose proof (read_path_check_same_state _ _ _ _ _ _ Hok) as ->.
  destruct (window_blocks E block_index _ HE Hload) as (loaded & Hrun & Hmem & Hw).
  unfold get_file_content. unfold bind at 1. unfold gets. rewrite Hidx.
  rewrite (outcome_bind _ _ _ _ _ Hok). simpl.
  rewrite (outcome_bind _ _ _ _ _ (inherited_eval _ _ _ _ Hrun)). unfold lift_res.
  rewrite (find_file_content_rule _ _ _ _ d bs o); [by destruct (_ || _)| |].
  - intros r Hr. apply list_elem_of_In, in_concat in Hr as (l & Hl & Hr).
    apply in_map_iff in Hl as (x & <- & Hx).
    apply list_elem_of_In, Hmem in Hx as (k & Hx & Hk).
    destruct (decide (k = block_index)) as [->|Hne].
    + left. apply Hw in Hx, Hb. assert (x = b) as -> by congruence.
      rewrite Hd in Hr. by destruct Hr as [<-|[]].
    + right. apply (Hothers k x); [done|done|by apply list_elem_of_In].
  - apply list_elem_of_In, in_concat. exists (data b). split.
    + apply in_map, list_elem_of_In, Hmem. exists block_index. split; [done|].
      destruct Hb as [_ (f & Hci & Hfb)].
      destruct (Hload _ _ Hci) as (b' & Hb' & Hib).
      unfold holds_block in *. congruence.
    + rewrite Hd. by left.
Qed.

Lemma loadable_file_store (t : store) fi us :
  loadable t →
  loadable ((t.1, mkFileBlockchain t.2 fi us).1,
            fb_self (t.1, mkFileBlockchain t.2 fi us).2).
Proof. intros H. exact H. Qed.

Lemma demo_window_neighbours k x r :
  k ≠ 1 →
  window_block (demo_backup_restarted.1, fb_self demo_backup_restarted.2) 1 k x →
  r ∈ data x → other_path "f.txt" r.
Proof.
  assert (chunk_index (demo_backup_restarted.1, fb_self demo_backup_restarted.2).2
            !! (1 - 1) = Some (block_file_name "default" 0)) as Hbefore
    by (vm_compute; exact eq_refl).
  assert (holds_block (demo_backup_restarted.1, fb_self demo_backup_restarted.2)
            (block_file_name "default" 0) (genesis_block "1700000000.25")) as Hgenesis
    by (vm_compute; exact eq_refl).
  assert (chunk_index (demo_backup_restarted.1, fb_self demo_backup_restarted.2).2
            !! (1 + 1) = None) as Hafter
    by (vm_compute; exact eq_refl).
  intros Hk [Hpos (f & Hci & Hfx)] Hr.
  destruct Hpos as [->|[[-> _]| ->]]; [exfalso; apply Hk; reflexivity| |].
  - rewrite Hbefore in Hci. injection Hci as <-.
    unfold holds_block in Hfx, Hgenesis. rewrite Hgenesis in Hfx.
    injection Hfx as <-. by inversion Hr.
  - rewrite Hafter in Hci. discriminate Hci.
Qed.

Lemma get_file_content_access_rule_witness :
  outcome (get_file_content BlockChainBackup plain_env "f.txt" "bob" true
             demo_backup_restarted)
  = Ok (if String.eqb "alice" "bob" || true then Some ["h"%byte; "i"%byte] else None).
Proof.
  refine (get_file_content_access_rule BlockChainBackup plain_env "f.txt" "bob" true
            demo_backup_restarted 1
            (mkBlock 1 88914 (calculate_hash (genesis_block "1700000000.25"))
               [FileRecord "f.txt" "2023-11-14 22:13:20" "6869" "alice"]
               "1700000001.0")
            "2023-11-14 22:13:20" ["h"%byte; "i"%byte] "alice"
            plain_env_ok
            (loadable_file_store demo_reloaded_store _ _ demo_restart_loadable)
            _ _ _ eq_refl demo_window_neighbours).
  - vm_compute. exact eq_refl.
  - vm_compute. exact eq_refl.
  - split; [by left|]. exists (block_file_name "default" 1).
    split; vm_compute; exact eq_refl.
Defined.

(* ===================================================================== *)
(** ** [construct_block] of [main.py] *)
(* ===================================================================== *)

(** X21.  When [construct_block] of [main.py] returns, the chain it leaves,
    the old chain with the new block at its end, is linked at every
    position: it does not return with a block that does not fit, nor on a
    chain that was not linked before. *)
Theorem construct_block_main_linked now proof_no prev_hash (s s' : store) b :
  construct_block Main now proof_no prev_hash s = Ok (b, s') →
  chain s'.2 = chain s.2 ++ [b] ∧ linked (chain s'.2).
Proof.
  intros H. apply construct_block_Ok in H as (-> & -> & Hv).
  split; [done|].
  apply valid_pairs_linked, verify_chain_integrity_pairs. by apply Hv.
Qed.

Lemma construct_block_main_linked_witness :
  chain (append_block
           (new_block (fb_self (file_blockchain demo_world)) 88914
              (calculate_hash (genesis_block "1700000000.25")) "1700000002.0")
           (files demo_world, fb_self (file_blockchain demo_world))).2
  = chain (files demo_world, fb_self (file_blockchain demo_world)).2
    ++ [new_block (fb_self (file_blockchain demo_world)) 88914
          (calculate_hash (genesis_block "1700000000.25")) "1700000002.0"]
  ∧ linked
      (chain (append_block
                (new_block (fb_self (file_blockchain demo_world)) 88914
                   (calculate_hash (genesis_block "1700000000.25")) "1700000002.0")
                (files demo_world, fb_self (file_blockchain demo_world))).2).
Proof.
  apply (construct_block_main_linked "1700000002.0" 88914
           (calculate_hash (genesis_block "1700000000.25"))
           (files demo_world, fb_self (file_blockchain demo_world))).
  apply construct_block_main.
  - vm_compute. exact eq_refl.
  - vm_compute. exact eq_refl.
Defined.

(* ===================================================================== *)
(** ** The integrity button of [main.py] *)
(* ===================================================================== *)

Lemma check_validity_needs_hash block prev_block :
  String.eqb (prev_hash block) (calculate_hash prev_block) = false →
  check_validity block prev_block = false.
Proof.
  intros Hh. unfold check_validity.
  destruct (negb (index prev_block + 1 =? index block)); [done|].
  by rewrite String.eqb_sym, Hh.
Qed.

Lemma check_integrity_from_success prev_block rest :
  (check_integrity_from prev_block rest).1 = "Success"
  ↔ verify_from prev_block rest = true.
Proof.
  revert prev_block. induction rest as [|block rest IH]; intros prev_block; simpl.
  - done.
  - destruct (String.eqb (prev_hash block) (calculate_hash prev_block)) eqn:Hh; simpl.
    + destruct (check_validity block prev_block); simpl; [apply IH|done].
    + by rewrite (check_validity_needs_hash _ _ Hh).
Qed.

(** X22.  The popup of [BlockchainApp.check_integrity] has the title
    [Success] exactly when [verify_chain_integrity] of [main.py] returns
    [True] on the same chain: its separate test of [prev_hash] finds
    nothing that [check_validity] would let pass. *)
Theorem check_integrity_agrees c :
  (check_integrity c).1 = "Success" ↔ MainPy.verify_chain_integrity c = true.
Proof.
  destruct c as [|b rest]; [done|]. apply check_integrity_from_success.
Qed.
